(** * Dresden appointment checker: a model of [check_appointments_once.py]

    The development embeds [DresdnAppointmentChecker] as Rocq functions and
    proves the properties its specification states.

    - Python [str] values are [string]s holding the UTF-8 encoding of the
      text.  UTF-8 is self-synchronising, so [x in y] on code points and on
      the encodings agree.
    - The parsed document is a tree of [node]s, as BeautifulSoup builds it;
      the parser itself ([html.parser], which may reject its input) and
      [str.lower] are library code and stay abstract.
    - Everything outside the process (HTTP, SMTP, the clock, signals) is an
      oracle in [env]; every call to it is recorded as an [event].  The
      [requests.Session] of the object is part of its state: its headers and
      its cookie jar, which every request may change.
    - Exceptions are values of [exn]; a computation is a function from the
      object's state to a result, the new state and the events it emitted. *)

From stdpp Require Import gmap strings list fin_maps.
From Stdlib Require Import ZArith Lia DecimalString.

Local Open Scope Z_scope.
Set Warnings "-register-all".

(** ** Strings *)

(** [s.startswith(prefix)]. *)
Fixpoint startswith (s prefix : string) {struct prefix} : bool :=
  match prefix with
  | EmptyString => true
  | String c prefix' =>
      match s with
      | EmptyString => false
      | String d s' => bool_decide (c = d) && startswith s' prefix'
      end
  end.

(** [needle in hay]: [needle] starts at some position of [hay]. *)
Fixpoint str_in (needle hay : string) : bool :=
  startswith hay needle ||
  match hay with
  | EmptyString => false
  | String _ hay' => str_in needle hay'
  end.

(** Truth value of a [str]: only the empty string is false. *)
Definition truthy (s : string) : bool :=
  match s with
  | EmptyString => false
  | String _ _ => true
  end.

(** ** The BeautifulSoup tree *)

Inductive node :=
| NavigableString (s : string)
| Tag (name : string) (attrs : gmap string string) (contents : list node).

(** What [BeautifulSoup(markup, 'html.parser')] yields: the document, or the
    message of the exception it raises on markup the parser rejects
    ([ParserRejectedMarkup] and the like, all of class [Exception]). *)
Inductive parsed :=
| Parsed (soup : node)
| Rejected (msg : string).

(** An element found in a tree: the node and its ancestors, nearest first. *)
Definition element : Type := node * list node.

(** [tag.get(key)]. *)
Definition get (n : node) (key : string) : option string :=
  match n with
  | NavigableString _ => None
  | Tag _ attrs _ => attrs !! key
  end.

(** Document order: a node, then the subtrees of its children. *)
Fixpoint walk (parents : list node) (n : node) : list element :=
  (n, parents) ::
  match n with
  | NavigableString _ => []
  | Tag _ _ contents => flat_map (walk (n :: parents)) contents
  end.

(** [tag.descendants]: everything below [n], [n] itself excluded. *)
Definition descendants (parents : list node) (n : node) : list element :=
  match n with
  | NavigableString _ => []
  | Tag _ _ contents => flat_map (walk (n :: parents)) contents
  end.

Definition is_tag (name : string) (n : node) : bool :=
  match n with
  | NavigableString _ => false
  | Tag nm _ _ => bool_decide (nm = name)
  end.

(** A tag matches [find(name, attrs)] when it has that name and every listed
    attribute with exactly the listed value. *)
Definition tag_matches (name : string) (want : list (string * string))
    (n : node) : bool :=
  is_tag name n &&
  forallb (λ kv, bool_decide (get n kv.1 = Some kv.2)) want.

(** [soup.find(name, attrs)]: the first match in document order. *)
Definition find (name : string) (want : list (string * string))
    (soup : node) : option element :=
  head (filter (λ el, tag_matches name want el.1 = true) (descendants [] soup)).

(** [el.find_parent(name)]: the nearest enclosing tag of that name. *)
Definition find_parent (name : string) (el : element) : option node :=
  head (filter (λ p, is_tag name p = true) el.2).

(** [tag.find_all(name)]: all matching descendants in document order. *)
Definition find_all (name : string) (n : node) : list node :=
  filter (λ d, is_tag name d = true) ((descendants [] n).*1).

(** ** Fragments of [check_appointments] *)

(** Lines 74-78: the button with the id first, then without. *)
Definition find_weiter_button (soup : node) : option element :=
  match find "input" [("type", "submit"); ("value", "Weiter"); ("id", "WeiterButton")] soup with
  | Some b => Some b
  | None => find "input" [("type", "submit"); ("value", "Weiter")] soup
  end.

(** Lines 89-92: one round of the loop over the form's inputs. *)
Definition add_field (form_data : gmap string string) (input_field : node)
    : gmap string string :=
  let name := get input_field "name" in
  let value := default "" (get input_field "value") in
  match name with
  | Some nm => if truthy nm then <[nm := value]> form_data else form_data
  | None => form_data
  end.

(** Lines 87-92. *)
Definition collect_form_data (form : node) : gmap string string :=
  foldl add_field ∅ (find_all "input" form).

(** Lines 94-98. *)
Definition form_url (base_url action : string) : string :=
  if startswith action "/" then base_url +:+ action
  else base_url +:+ "/" +:+ action.

Definition no_appointments_text : string :=
  "Derzeit sind alle verfügbaren Termine ausgebucht. Bitte versuchen Sie es zu einem späteren Zeitpunkt".

(** ** Exceptions and results *)

(** The exception classes the handlers of the program tell apart:
    [requests.exceptions.RequestException] (with its subclasses), any other
    subclass of [Exception], and [KeyboardInterrupt], which derives from
    [BaseException] only. *)
Inductive exn :=
| RequestException (msg : string)
| OtherException (msg : string)
| KeyboardInterrupt.

(** [isinstance(e, Exception)]. *)
Definition is_Exception (e : exn) : bool :=
  match e with
  | KeyboardInterrupt => false
  | RequestException _ | OtherException _ => true
  end.

(** [isinstance(e, requests.exceptions.RequestException)]. *)
Definition is_RequestException (e : exn) : bool :=
  match e with
  | RequestException _ => true
  | OtherException _ | KeyboardInterrupt => false
  end.

(** [str(e)]. *)
Definition str_exn (e : exn) : string :=
  match e with
  | RequestException msg | OtherException msg => msg
  | KeyboardInterrupt => ""
  end.

Inductive res (A : Type) :=
| Val (a : A)
| Raise (e : exn).
Arguments Val {A} a.
Arguments Raise {A} e.

(** ** Data *)

Record response := {
  status_code : Z;
  reason : string;
  url : string;
  set_cookie : option string;   (* response.headers.get("Set-Cookie") *)
  text : string;
}.

(** [os.getenv] yields [None] for an unset variable. *)
Record email_config_t := {
  smtp_server : string;
  smtp_port : Z;
  sender_email : option string;
  sender_password : option string;
  recipient_email : option string;
}.

Record message := {
  msg_from : option string;
  msg_to : option string;
  msg_subject : string;
  msg_body : string;
}.

(** The cookies a [requests.Session] holds in its jar, as pairs of name and
    value. *)
Definition cookiejar : Type := list (string * string).

(** The state of a [requests.Session] that outlives a request: the headers
    it adds to every request and its cookie jar.  The session fills the jar
    from the responses it receives and offers its cookies to the requests
    that follow. *)
Record session_t := {
  headers : gmap string string;
  cookies : cookiejar;
}.

(** The attributes of a [DresdnAppointmentChecker].  [last_state] starts as
    [None]; the methods assign to no other attribute, and the session changes
    through the requests made with it. *)
Record checker := {
  base_url : string;
  start_url : string;
  final_url : string;
  email_config : email_config_t;
  session : session_t;
  last_state : option bool;
}.

(** Lines 29-36.  The update replaces the four default headers of a new
    session (User-Agent, Accept-Encoding, Accept, Connection) and adds two. *)
Definition session_headers : gmap string string :=
  {[ "User-Agent" := "Mozilla/5.0 (Windows NT 10.0; Win64; x64) AppleWebKit/537.36 (KHTML, like Gecko) Chrome/120.0.0.0 Safari/537.36";
     "Accept" := "text/html,application/xhtml+xml,application/xml;q=0.9,image/webp,*/*;q=0.8";
     "Accept-Language" := "de-DE,de;q=0.9,en;q=0.8";
     "Accept-Encoding" := "gzip, deflate, br";
     "Connection" := "keep-alive";
     "Upgrade-Insecure-Requests" := "1" ]}.

(** [__init__]: a new session has an empty jar. *)
Definition init (cfg : email_config_t) : checker :=
  let base := "https://termine-buergerbuero.dresden.de" in
  {| base_url := base;
     start_url := base +:+ "/select2?md=1";
     final_url := base +:+ "/location?mdt=9&select_cnc=1&cnc-442=1";
     email_config := cfg;
     session := {| headers := session_headers; cookies := [] |};
     last_state := None |}.

(** Calls that leave the process, in the order they are made.  A request is
    recorded with the arguments of the call: [HttpGet target cookie] is
    [self.session.get(target, timeout=30)] when [cookie] is [None] and
    [self.session.get(target, headers={"Cookie": c}, timeout=30)] when it is
    [Some c]; [HttpPost target data] is
    [self.session.post(target, data=data, timeout=30)].  What the session
    adds to the request on the wire, from its headers and its jar, is not
    part of the event: it is the [session] of the object at the time of the
    call. *)
Inductive event :=
| EPrint (line : string)
| HttpGet (target : string) (cookie : option string)
| HttpPost (target : string) (data : gmap string string)
| SmtpConnect (host : string) (port : Z)
| SmtpStartTls
| SmtpLogin (user password : option string)
| SmtpSendMessage (m : message)
| SmtpQuit
| Sleep (secs : Z).

(** What the outside world answers during one round: one check, the
    notification and the sleep that follow it.  The answer to a request is
    given for the arguments of the call.  The requests of a round differ in
    their arguments (one GET without a Cookie header, one with, one POST),
    so what an answer owes to the cookies the session sends along is part of
    the oracle of that round.  [cookies_after ev jar] is the jar of the
    session once the request [ev], made with the jar [jar], is over: the
    cookies that the responses of the exchange set are stored, also when the
    request ends in an exception. *)
Record env := {
  http_get : string → option string → res response;
  http_post : string → gmap string string → res response;
  cookies_after : event → cookiejar → cookiejar;
  smtp_connect : string → Z → res ();
  smtp_starttls : res ();
  smtp_login : option string → option string → res ();
  smtp_send_message : message → res ();
  smtp_quit : res ();
  now_stamp : string;   (* datetime.now().strftime('%Y-%m-%d %H:%M:%S') *)
  now_text : string;    (* str(datetime.now()) *)
  sleep_room : Z;       (* the longest sleep, in seconds, the kernel accepts *)
  sleep_interrupted : Z → bool;
}.

(** ** Computations *)

Definition M (A : Type) : Type := checker → res A * checker * list event.

Definition M_ret {A} (a : A) : M A := λ s, (Val a, s, []).

Definition M_bind {A B} (f : A → M B) (m : M A) : M B := λ s,
  match m s with
  | (Val a, s', t) => let '(r, s'', t') := f a s' in (r, s'', t ++ t')
  | (Raise e, s', t) => (Raise e, s', t)
  end.

#[global] Instance M_mret : MRet M := @M_ret.
#[global] Instance M_mbind : MBind M := @M_bind.

Definition raise {A} (e : exn) : M A := λ s, (Raise e, s, []).

Definition emit (ev : event) : M () := λ s, (Val (), s, [ev]).

(** A call to the outside: recorded, then answered. *)
Definition call {A} (ev : event) (answer : res A) : M A := λ s, (answer, s, [ev]).

(** The object with the jar [jar] in its session. *)
Definition with_cookies (s : checker) (jar : cookiejar) : checker :=
  {| base_url := base_url s; start_url := start_url s; final_url := final_url s;
     email_config := email_config s;
     session := {| headers := headers (session s); cookies := jar |};
     last_state := last_state s |}.

(** A request made with [self.session]: recorded and answered, and the jar
    of the session is what the exchange leaves in it. *)
Definition session_request {A} (e : env) (ev : event) (answer : res A) : M A := λ s,
  (answer, with_cookies s (cookies_after e ev (cookies (session s))), [ev]).

Definition print (line : string) : M () := emit (EPrint line).

Definition get_self : M checker := λ s, (Val s, s, []).

(** The object after [self.last_state = v]. *)
Definition with_last_state (s : checker) (v : option bool) : checker :=
  {| base_url := base_url s; start_url := start_url s; final_url := final_url s;
     email_config := email_config s; session := session s; last_state := v |}.

Definition set_last_state (v : option bool) : M () := λ s,
  (Val (), with_last_state s v, []).

(** [try: body except ...]: [handler e] is the clause that catches [e], if any. *)
Definition try_except {A} (body : M A) (handler : exn → option (M A)) : M A := λ s,
  match body s with
  | (Val a, s', t) => (Val a, s', t)
  | (Raise e, s', t) =>
      match handler e with
      | Some h => let '(r, s'', t') := h s' in (r, s'', t ++ t')
      | None => (Raise e, s', t)
      end
  end.

(** The three parts of what a computation yields. *)
Definition result {R} (o : R * checker * list event) : R := o.1.1.
Definition state_after {R} (o : R * checker * list event) : checker := o.1.2.
Definition trace {R} (o : R * checker * list event) : list event := o.2.

Definition nl : string := String (Ascii.ascii_of_nat 10) EmptyString.

(** Decimal text of an integer, as [str(n)] gives it. *)
Definition str_Z (n : Z) : string := NilZero.string_of_int (Z.to_int n).

(** [response.raise_for_status()]: an [HTTPError], a [RequestException], for
    a status from 400 to 599. *)
Definition http_error_msg (kind : string) (r : response) : string :=
  str_Z (status_code r) +:+ " " +:+ kind +:+ ": " +:+ reason r +:+ " for url: " +:+ url r.

Definition raise_for_status (r : response) : M () :=
  if (400 <=? status_code r) && (status_code r <? 500)
  then raise (RequestException (http_error_msg "Client Error" r))
  else if (500 <=? status_code r) && (status_code r <? 600)
  then raise (RequestException (http_error_msg "Server Error" r))
  else mret ().

(** [with smtplib.SMTP(host, port, timeout=30) as server: body].  Leaving the
    block sends QUIT, also when the body raised; what QUIT raises replaces
    what the body raised. *)
Definition smtp_exit {A} (e : env) (body : M A) : M A := λ s,
  let '(r, s', t) := body s in
  match smtp_quit e with
  | Val _ => (r, s', t ++ [SmtpQuit])
  | Raise x => (Raise x, s', t ++ [SmtpQuit])
  end.

Definition with_smtp {A} (e : env) (host : string) (port : Z) (body : M A) : M A :=
  call (SmtpConnect host port) (smtp_connect e host port);;
  smtp_exit e body.

(** The longest sleep, in seconds, that fits the clock of the interpreter:
    [time.sleep] converts its argument to nanoseconds in a signed 64-bit
    integer (CPython 3.11, [_PyTime_t]). *)
Definition sleep_max : Z := 9223372036.

(** The longest sleep the kernel accepts in [e].  The sleep is a system call
    with the time at which it ends; Linux refuses, with [EINVAL], an end its
    own clock cannot hold, so the room left shrinks as the machine runs.
    The clock is taken to be at least a minute from its end (it holds 292
    years). *)
Definition sleep_limit (e : env) : Z := Z.max 60 (sleep_room e).

(** What [time.sleep(secs)] raises before it sleeps, for an [int]: an
    [OverflowError] when the seconds do not fit, in either sign; then a
    [ValueError] for a negative length; then the [OSError] of a system call
    that the kernel refuses. *)
Definition sleep_error (e : env) (secs : Z) : option exn :=
  if (secs <? - sleep_max) || (sleep_max <? secs)
  then Some (OtherException "timestamp too large to convert to C _PyTime_t")
  else if secs <? 0
  then Some (OtherException "sleep length must be non-negative")
  else if sleep_limit e <? secs
  then Some (OtherException "[Errno 22] Invalid argument")
  else None.

(** [time.sleep(secs)]; a signal that arrives during the sleep raises
    [KeyboardInterrupt]. *)
Definition time_sleep (e : env) (secs : Z) : M () :=
  match sleep_error e secs with
  | Some x => raise x
  | None =>
      call (Sleep secs) (if sleep_interrupted e secs then Raise KeyboardInterrupt else Val ())
  end.

(** ** The program *)

Section Program.

(** [BeautifulSoup(text, 'html.parser')] and [str.lower]. *)
Context (html_parser : string → parsed) (lower : string → string).

(** Lines 45-114: the body of the [try]. *)
Definition check_appointments_body (e : env) : M (bool * string) :=
  self ← get_self;
  print "  Step 1: Loading initial page...";;
  response ← session_request e (HttpGet (start_url self) None)
                             (http_get e (start_url self) None);
  raise_for_status response;;
  match set_cookie response with
  | None => mret (false, "⚠️ Session error - set-cookie was not found")
  | Some cookie =>
    if negb (truthy cookie)
    then mret (false, "⚠️ Session error - set-cookie was not found")
    else
    print "  Step 2: Jumping to location page...";;
    response ← session_request e (HttpGet (final_url self) (Some cookie))
                               (http_get e (final_url self) (Some cookie));
    raise_for_status response;;
    match html_parser (text response) with
    | Rejected msg => raise (OtherException msg)
    | Parsed soup =>
    if str_in "fehler" (lower (text response)) || str_in "error" (lower (text response))
    then mret (false, text response)
    else
    let page_text := text response in
    if negb (str_in "Ausländerbehörde Dresden 33.41" page_text)
       || negb (str_in "Theaterstraße" page_text)
    then mret (false, "⚠️ Could not find expected location information")
    else
    print "  Step 3: Proceeding to appointment selection...";;
    match find_weiter_button soup with
    | None => mret (false, "⚠️ Could not find 'Weiter' button on location page")
    | Some weiter_button =>
      match find_parent "form" weiter_button with
      | None => mret (false, "⚠️ Could not find form for Weiter button")
      | Some form =>
        let form_data := collect_form_data form in
        let action := default "" (get form "action") in
        let target := form_url (base_url self) action in
        response ← session_request e (HttpPost target form_data)
                                   (http_post e target form_data);
        raise_for_status response;;
        print "  Step 6: Checking appointment availability...";;
        let final_page_text := text response in
        if str_in no_appointments_text final_page_text
        then mret (false, "❌ No appointments available")
        else mret (true, "✅ APPOINTMENTS AVAILABLE! Check immediately: "
                         +:+ base_url self +:+ "/suggest")
      end
    end
    end
  end.

(** Lines 116-119: the two [except] clauses. *)
Definition check_appointments_handler (x : exn) : option (M (bool * string)) :=
  if is_RequestException x
  then Some (mret (false, "⚠️ Network error: " +:+ str_exn x))
  else if is_Exception x
  then Some (mret (false, "⚠️ Error during navigation: " +:+ str_exn x))
  else None.

Definition check_appointments (e : env) : M (bool * string) :=
  try_except (check_appointments_body e) check_appointments_handler.

(** The flag of the check in [e], [false] when the check is interrupted. *)
Definition check_flag (e : env) (s : checker) : bool :=
  match result (check_appointments e s) with
  | Val (flag, _) => flag
  | Raise _ => false
  end.

(** Lines 124-137: the body of the [try] of [send_email]. *)
Definition send_email_body (e : env) (subject body : string) : M bool :=
  self ← get_self;
  let cfg := email_config self in
  let msg := {| msg_from := sender_email cfg; msg_to := recipient_email cfg;
                msg_subject := subject; msg_body := body |} in
  with_smtp e (smtp_server cfg) (smtp_port cfg)
    (call SmtpStartTls (smtp_starttls e);;
     call (SmtpLogin (sender_email cfg) (sender_password cfg))
          (smtp_login e (sender_email cfg) (sender_password cfg));;
     call (SmtpSendMessage msg) (smtp_send_message e msg));;
  print ("✉️ Email sent: " +:+ subject);;
  mret true.

Definition send_email_handler (x : exn) : option (M bool) :=
  if is_Exception x
  then Some (print ("❌ Failed to send email: " +:+ str_exn x);; mret false)
  else None.

Definition send_email (e : env) (subject body : string) : M bool :=
  try_except (send_email_body e subject body) send_email_handler.

Definition email_subject : string :=
  "🎉 Dresden Ausländerbehörde Appointments Available!".

Definition email_body (self : checker) (e : env) (message : string) : string :=
  message +:+ nl +:+ nl +:+ "Go to: " +:+ base_url self +:+ "/select2?md=1"
  +:+ nl +:+ nl +:+ "Time detected: " +:+ now_text e
  +:+ nl +:+ nl +:+ "Book immediately before they're gone!".

(** Line 150: [available and self.last_state != available]. *)
Definition should_notify (last : option bool) (available : bool) : bool :=
  available && negb (bool_decide (last = Some available)).

Definition run_once (e : env) : M bool :=
  print (nl +:+ "[" +:+ now_stamp e +:+ "] Checking for appointments...");;
  '(available, message) ← check_appointments e;
  print message;;
  self ← get_self;
  (if should_notify (last_state self) available
   then send_email e email_subject (email_body self e message);; mret ()
   else mret ());;
  set_last_state (Some available);;
  mret available.

(** Lines 170-178, the [try] of the loop around a body: [true] to go on
    with the next round, [false] after [break].  [KeyboardInterrupt] is no
    [Exception], so the first clause is the one that takes it. *)
Definition loop_guard (e : env) (body : M ()) : M bool :=
  try_except
    (body;; mret true)
    (λ x, if is_Exception x
          then Some (print ("⚠️ Unexpected error: " +:+ str_exn x);;
                     time_sleep e 60;; mret true)
          else Some (print (nl +:+ "👋 Stopping checker...");; mret false)).

(** One round of [while True]. *)
Definition iteration (e : env) (check_interval : Z) : M bool :=
  loop_guard e (run_once e;; time_sleep e check_interval).


(** How far the loop has come when the environments given to it are used up. *)
Inductive loop_end :=
| StillRunning
| Returned
| Escaped (x : exn).

(** [while True], one environment per round. *)
Fixpoint loop (envs : list env) (check_interval : Z) (s : checker)
    : loop_end * checker * list event :=
  match envs with
  | [] => (StillRunning, s, [])
  | e :: envs' =>
      match iteration e check_interval s with
      | (Val true, s', t) =>
          let '(r, s'', t') := loop envs' check_interval s' in (r, s'', t ++ t')
      | (Val false, s', t) => (Returned, s', t)
      | (Raise x, s', t) => (Escaped x, s', t)
      end
  end.



End Program.

(** ** The entry point *)

(** [repr] of a key: the keys hold no quote, backslash or control character. *)
Definition repr_str (s : string) : string := "'" +:+ s +:+ "'".

(** [sep.join(l)]. *)
Fixpoint join (sep : string) (l : list string) : string :=
  match l with
  | [] => ""
  | [x] => x
  | x :: l' => x +:+ sep +:+ join sep l'
  end.

(** [repr] of a list of keys, as the f-string of line 194 prints it. *)
Definition repr_list (l : list string) : string :=
  "[" +:+ join ", " (map repr_str l) +:+ "]".

(** Lines 183-189: the configuration, with [getenv] for [os.getenv]. *)
Definition main_email_config (getenv : string → option string) : email_config_t :=
  {| smtp_server := "smtp.gmail.com";
     smtp_port := 587;
     sender_email := getenv "SENDER_EMAIL";
     sender_password := getenv "SENDER_PASSWORD";
     recipient_email := getenv "RECIPIENT_EMAIL" |}.

(** [v is None]. *)
Definition is_none {A} (v : option A) : bool :=
  match v with
  | None => true
  | Some _ => false
  end.

(** Line 192: the keys whose value is [None], in the order of the dict.  The
    first two values are a [str] and an [int]. *)
Definition missing (cfg : email_config_t) : list string :=
  map fst
    (List.filter snd
       [ ("smtp_server", false);
         ("smtp_port", false);
         ("sender_email", is_none (sender_email cfg));
         ("sender_password", is_none (sender_password cfg));
         ("recipient_email", is_none (recipient_email cfg)) ]).

Section EntryPoint.

Context (html_parser : string → parsed) (lower : string → string).

(** Lines 181-198: the script. *)
Definition main (getenv : string → option string) (e : env)
    : res bool * checker * list event :=
  let email_config := main_email_config getenv in
  let warning :=
    match missing email_config with
    | [] => []
    | _ :: _ => [EPrint ("⚠️ Missing email config from environment: "
                          +:+ repr_list (missing email_config))]
    end in
  let checker := init email_config in
  let '(r, s, t) := run_once html_parser lower e checker in
  (r, s, warning ++ t).

End EntryPoint.

(** ** Vocabulary of the properties *)

(** What a call raises in [e], if anything. *)
Definition raised_by {A} (r : res A) : option exn :=
  match r with
  | Val _ => None
  | Raise x => Some x
  end.

Definition raised (e : env) (ev : event) : option exn :=
  match ev with
  | EPrint _ => None
  | HttpGet target cookie => raised_by (http_get e target cookie)
  | HttpPost target data => raised_by (http_post e target data)
  | SmtpConnect host port => raised_by (smtp_connect e host port)
  | SmtpStartTls => raised_by (smtp_starttls e)
  | SmtpLogin user password => raised_by (smtp_login e user password)
  | SmtpSendMessage m => raised_by (smtp_send_message e m)
  | SmtpQuit => raised_by (smtp_quit e)
  | Sleep secs => if sleep_interrupted e secs then Some KeyboardInterrupt else None
  end.

(** The response a request receives in [e], if it receives one. *)
Definition answered (e : env) (ev : event) : option response :=
  match ev with
  | HttpGet target cookie =>
      match http_get e target cookie with Val r => Some r | Raise _ => None end
  | HttpPost target data =>
      match http_post e target data with Val r => Some r | Raise _ => None end
  | _ => None
  end.

(** No signal arrives in [e]: whatever a call raises is an [Exception]. *)
Definition no_interrupt (e : env) : Prop :=
  ∀ ev x, raised e ev = Some x → is_Exception x = true.

Definition is_request (ev : event) : bool :=
  match ev with
  | HttpGet _ _ | HttpPost _ _ => true
  | _ => false
  end.

(** The HTTP requests of a trace, in order. *)
Definition requests (t : list event) : list event := List.filter is_request t.

(** The jar that the requests of a trace leave in a session that held
    [jar] before them. *)
Definition jar_after (e : env) (t : list event) (jar : cookiejar) : cookiejar :=
  foldl (λ j ev, cookies_after e ev j) jar (requests t).

Definition is_post (ev : event) : bool :=
  match ev with
  | HttpPost _ _ => true
  | _ => false
  end.

(** The form submissions of a trace. *)
Definition posts (t : list event) : list event := List.filter is_post t.

Definition is_connect (ev : event) : bool :=
  match ev with
  | SmtpConnect _ _ => true
  | _ => false
  end.

(** The number of notification attempts in a trace: [send_email] opens one
    SMTP connection per call, before anything else. *)
Definition attempts (t : list event) : nat := length (List.filter is_connect t).

Definition is_sleep (ev : event) : bool :=
  match ev with
  | Sleep _ => true
  | _ => false
  end.

(** The number of sleeps in a trace: one per completed round of the loop. *)
Definition sleeps (t : list event) : nat := length (List.filter is_sleep t).

(** The value an input contributes: its [value] attribute, or the empty
    string. *)
Definition field_value (input_field : node) : string :=
  default "" (get input_field "value").

(** The [name] attributes of a list of inputs, in document order. *)
Definition names (inputs : list node) : list string :=
  omap (λ i, get i "name") inputs.

(** A submit input labelled Weiter, with or without the id, somewhere in the
    document. *)
Definition has_weiter_button (soup : node) : Prop :=
  ∃ el, el ∈ descendants [] soup ∧
        tag_matches "input" [("type", "submit"); ("value", "Weiter")] el.1 = true.

(** The transitions into Available along a sequence of check results that
    follows the remembered state [previous]. *)
Fixpoint transitions_into_available (previous : option bool) (flags : list bool) : nat :=
  match flags with
  | [] => 0
  | flag :: flags' =>
      ((match flag, previous with
        | true, Some true => 0
        | true, _ => 1
        | false, _ => 0
        end) + transitions_into_available (Some flag) flags')%nat
  end.

(** A status that [raise_for_status] lets pass. *)
Definition good_status (r : response) : Prop := ¬ (400 ≤ status_code r < 600).

(** The first two steps of the check go through in [e] and end with the
    location page [page]: the start page comes with a good status and a
    non-empty Set-Cookie header, and the location URL, asked for with that
    cookie, answers [page] with a good status. *)
Definition location_served (e : env) (s : checker) (page : response) : Prop :=
  ∃ start cookie,
    http_get e (start_url s) None = Val start
    ∧ good_status start
    ∧ set_cookie start = Some cookie ∧ cookie ≠ ""
    ∧ http_get e (final_url s) (Some cookie) = Val page
    ∧ good_status page.


Definition is_smtp (ev : event) : bool :=
  match ev with
  | SmtpConnect _ _ | SmtpStartTls | SmtpLogin _ _ | SmtpSendMessage _ | SmtpQuit => true
  | _ => false
  end.

(** The SMTP calls of a trace, in order. *)
Definition smtp_events (t : list event) : list event := List.filter is_smtp t.

(** ** Fixtures *)

Module Fixture.

(** Lower case on the ASCII letters, other bytes unchanged. *)
Definition lower_ascii (c : Ascii.ascii) : Ascii.ascii :=
  let n := Ascii.nat_of_ascii c in
  if ((65 <=? n) && (n <=? 90))%nat then Ascii.ascii_of_nat (n + 32) else c.

Fixpoint lower (s : string) : string :=
  match s with
  | EmptyString => EmptyString
  | String c s' => String (lower_ascii c) (lower s')
  end.

Definition weiter : node :=
  Tag "input" {[ "type" := "submit"; "value" := "Weiter"; "id" := "WeiterButton" ]} [].

(** A form with the fields a = 1 and b (no value attribute). *)
Definition form : node :=
  Tag "form" {[ "action" := "suggest" ]}
    [ Tag "input" {[ "type" := "hidden"; "name" := "a"; "value" := "1" ]} [];
      Tag "p" ∅ [ Tag "input" {[ "name" := "b" ]} [] ];
      weiter ].

(** A form in which the name t occurs twice. *)
Definition form_twice : node :=
  Tag "form" {[ "action" := "/x" ]}
    [ Tag "input" {[ "name" := "t"; "value" := "old" ]} [];
      Tag "input" {[ "name" := "u"; "value" := "7" ]} [];
      Tag "input" {[ "name" := "t"; "value" := "new" ]} [];
      Tag "input" {[ "type" := "submit"; "value" := "Weiter" ]} [] ].

(** A form with one input of empty name beside the button. *)
Definition form_empty_name : node :=
  Tag "form" {[ "action" := "suggest" ]}
    [ Tag "input" {[ "name" := ""; "value" := "x" ]} [];
      weiter ].

(** A form whose two inputs carry the empty name. *)
Definition form_unnamed : node :=
  Tag "form" ∅
    [ Tag "input" {[ "name" := ""; "value" := "x" ]} [];
      Tag "input" {[ "name" := ""; "value" := "y" ]} [] ].

Definition document (body : list node) : node :=
  Tag "[document]" ∅ [ Tag "html" ∅ [ Tag "body" ∅ body ] ].

Definition location_text : string :=
  "<h1>Ausländerbehörde Dresden 33.41</h1><p>Theaterstraße 11</p><form>...</form>".


Definition location_text_empty_name : string :=
  "<h1>Ausländerbehörde Dresden 33.41</h1><p>Theaterstraße 11</p><form><input name=''>...</form>".

Definition html_parser (markup : string) : parsed :=
  if bool_decide (markup = location_text)
  then Parsed (document [ NavigableString "Ausländerbehörde Dresden 33.41"; form ])
  else if bool_decide (markup = location_text_empty_name)
  then Parsed (document [ NavigableString "Ausländerbehörde Dresden 33.41"; form_empty_name ])
  else Parsed (document [ NavigableString markup ]).

Definition page (body : string) : response :=
  {| status_code := 200; reason := "OK"; url := "https://termine-buergerbuero.dresden.de/";
     set_cookie := Some "cookie_accept=1"; text := body |}.

Definition cfg : email_config_t :=
  {| smtp_server := "smtp.gmail.com"; smtp_port := 587;
     sender_email := Some "sender@example.org";
     sender_password := Some "secret";
     recipient_email := Some "me@example.org" |}.

Definition self : checker := init cfg.

(** A site that answers every request, with [final_page] after the POST. *)
Definition site (location_page final_page : string) : env :=
  {| http_get := λ target _,
       if bool_decide (target = start_url self) then Val (page "<html>start</html>")
       else Val (page location_page);
     http_post := λ _ _, Val (page final_page);
     cookies_after := λ ev jar,
       match ev with
       | HttpGet _ None => [("cookie_accept", "1")]
       | _ => jar
       end;
     smtp_connect := λ _ _, Val ();
     smtp_starttls := Val ();
     smtp_login := λ _ _, Val ();
     smtp_send_message := λ _, Val ();
     smtp_quit := Val ();
     now_stamp := "2025-01-07 09:30:00";
     now_text := "2025-01-07 09:30:02.123456";
     sleep_room := 9223353855;
     sleep_interrupted := λ _, false |}.

Definition with_login_failure (e : env) : env :=
  {| http_get := http_get e; http_post := http_post e;
     cookies_after := cookies_after e;
     smtp_connect := smtp_connect e; smtp_starttls := smtp_starttls e;
     smtp_login := λ _ _, Raise (OtherException "(535, b'5.7.8 Username and Password not accepted')");
     smtp_send_message := smtp_send_message e; smtp_quit := smtp_quit e;
     now_stamp := now_stamp e; now_text := now_text e;
     sleep_room := sleep_room e;
     sleep_interrupted := sleep_interrupted e |}.

Definition with_timeout (e : env) : env :=
  {| http_get := λ _ _, Raise (RequestException "Read timed out. (read timeout=30)");
     http_post := http_post e;
     cookies_after := cookies_after e;
     smtp_connect := smtp_connect e; smtp_starttls := smtp_starttls e;
     smtp_login := smtp_login e;
     smtp_send_message := smtp_send_message e; smtp_quit := smtp_quit e;
     now_stamp := now_stamp e; now_text := now_text e;
     sleep_room := sleep_room e;
     sleep_interrupted := sleep_interrupted e |}.

Definition available : env := site location_text "<h1>Bitte Termin auswählen</h1>".

Definition booked : env :=
  site location_text ("<p>" +:+ no_appointments_text +:+ ".</p>").


Definition empty_name : env :=
  site location_text_empty_name "<h1>Bitte Termin auswählen</h1>".

End Fixture.

(** Further fixtures, for the edges of the flow. *)

Module Edge.

(** A start page that sets no cookie. *)
Definition without_cookie (e : env) : env :=
  {| http_get := λ _ _,
       Val {| status_code := 200; reason := "OK";
              url := "https://termine-buergerbuero.dresden.de/";
              set_cookie := None; text := "<html>start</html>" |};
     http_post := http_post e;
     cookies_after := cookies_after e;
     smtp_connect := smtp_connect e; smtp_starttls := smtp_starttls e;
     smtp_login := smtp_login e;
     smtp_send_message := smtp_send_message e; smtp_quit := smtp_quit e;
     now_stamp := now_stamp e; now_text := now_text e;
     sleep_room := sleep_room e;
     sleep_interrupted := sleep_interrupted e |}.

Definition error_text : string :=
  "<h1>Fehler</h1><p>Ausländerbehörde Dresden 33.41, Theaterstraße 11</p>".

Definition other_office_text : string :=
  "<h1>Bürgerbüro Altstadt</h1><p>Theaterstraße 11</p>".

Definition loose_button_text : string :=
  "<h1>Ausländerbehörde Dresden 33.41</h1><p>Theaterstraße 11</p><input type=submit>".

(** Markup that [html.parser] rejects (a marked section it does not know),
    on a page with an error word. *)
Definition rejected_text : string := "<p>Fehler</p><![foo]>".

(** The parser of the fixtures, with a page whose button stands in no form
    and a page it rejects. *)
Definition html_parser (markup : string) : parsed :=
  if bool_decide (markup = loose_button_text)
  then Parsed (Fixture.document [ Fixture.weiter ])
  else if bool_decide (markup = rejected_text)
  then Rejected "The markup you provided was rejected by the parser."
  else Fixture.html_parser markup.

Definition rejected_page : env := Fixture.site rejected_text "".

Definition error_page : env := Fixture.site error_text "".
Definition other_office : env := Fixture.site other_office_text "".
Definition loose_button : env := Fixture.site loose_button_text "".

(** The document of the fixture form, and its button as the lookup finds it. *)
Definition soup : node := Fixture.document [ Fixture.form ].
Definition button : element := default (Fixture.weiter, []) (find_weiter_button soup).

(** The message of the first notification in the fixture. *)
Definition verdict : string :=
  "✅ APPOINTMENTS AVAILABLE! Check immediately: https://termine-buergerbuero.dresden.de/suggest".

Definition notification : message :=
  {| msg_from := Some "sender@example.org"; msg_to := Some "me@example.org";
     msg_subject := email_subject;
     msg_body := email_body Fixture.self Fixture.available verdict |}.

End Edge.

(** * Properties *)

(** ** Strings *)

Lemma startswith_spec (s p : string) :
  startswith s p = true ↔ ∃ rest, s = p +:+ rest.
Proof.
  revert s. induction p as [|c p IH]; intros s; simpl.
  - split; [intros _; by exists s | done].
  - destruct s as [|d s]; simpl.
    + split; [done | by intros [rest ?]].
    + rewrite andb_true_iff, bool_decide_eq_true, IH. split.
      * intros [-> [rest ->]]. by exists rest.
      * intros [rest Heq]. injection Heq as -> ->. eauto.
Qed.

Lemma str_in_spec (needle hay : string) :
  str_in needle hay = true ↔ ∃ pre post, hay = pre +:+ needle +:+ post.
Proof.
  induction hay as [|c hay IH]; simpl; rewrite orb_true_iff, startswith_spec.
  - split.
    + intros [[rest ->]|?]; [|done]. by exists EmptyString, rest.
    + intros [[|d pre] [post Heq]]; [|done]. left. by exists post.
  - rewrite IH. split.
    + intros [[rest ->]|(pre & post & ->)].
      * by exists EmptyString, rest.
      * by exists (String c pre), post.
    + intros [[|d pre] [post Heq]]; simpl in Heq.
      * left. by exists post.
      * injection Heq as -> ->. right. by exists pre, post.
Qed.

(** ** Lists *)

Lemma filter_none {A} (P : A → Prop) `{∀ x, Decision (P x)} (l : list A) :
  (∀ x, x ∈ l → ¬ P x) → filter P l = [].
Proof.
  induction l as [|y l IH]; intros Hl; [done|].
  rewrite filter_cons_False by (apply Hl; left).
  apply IH. intros x Hx. apply Hl. by right.
Qed.

(** ** The harvested form fields *)

Lemma truthy_spec (s : string) : truthy s = true ↔ s ≠ "".
Proof. by destruct s. Qed.

Lemma add_field_lookup_same m i n :
  get i "name" = Some n → n ≠ "" → add_field m i !! n = Some (field_value i).
Proof.
  intros Hn Hne. unfold add_field. rewrite Hn.
  apply truthy_spec in Hne as ->. by rewrite lookup_insert_eq.
Qed.

Lemma add_field_lookup_other m i n :
  get i "name" ≠ Some n → add_field m i !! n = m !! n.
Proof.
  intros Hn. unfold add_field. destruct (get i "name") as [nm|]; [|done].
  destruct (truthy nm); [|done]. apply lookup_insert_ne. congruence.
Qed.

(** The entry of a name after the loop: the value of the last input carrying
    it, or what the map held before. *)
Lemma foldl_add_field_lookup inputs m n :
  n ≠ "" →
  foldl add_field m inputs !! n =
    match last (filter (λ i, get i "name" = Some n) inputs) with
    | Some i => Some (field_value i)
    | None => m !! n
    end.
Proof.
  intros Hne. revert m. induction inputs as [|x l IH]; intros m; [done|].
  simpl. rewrite IH. destruct (decide (get x "name" = Some n)) as [Hx|Hx].
  - rewrite filter_cons_True, last_cons by done.
    destruct (last _); [done|]. by apply add_field_lookup_same.
  - rewrite filter_cons_False by done.
    destruct (last _); [done|]. by apply add_field_lookup_other.
Qed.

Lemma foldl_add_field_dom inputs m n v :
  foldl add_field m inputs !! n = Some v →
  m !! n = Some v ∨
  ∃ i, i ∈ inputs ∧ get i "name" = Some n ∧ n ≠ "" ∧ v = field_value i.
Proof.
  revert m. induction inputs as [|x l IH]; intros m; simpl; [by left|].
  intros [Hm|(i & ? & ? & ? & ?)]%IH.
  - destruct (decide (get x "name" = Some n)) as [Hx|Hx].
    + destruct (decide (n = "")) as [->|Hne].
      * left. unfold add_field in Hm. by rewrite Hx in Hm.
      * rewrite add_field_lookup_same in Hm by done. injection Hm as <-.
        right. exists x. split_and!; [left|done..].
    + rewrite add_field_lookup_other in Hm by done. by left.
  - right. exists i. split_and!; [by right|done..].
Qed.

Lemma filter_name_unique inputs x n :
  NoDup (names inputs) → x ∈ inputs → get x "name" = Some n →
  filter (λ i, get i "name" = Some n) inputs = [x].
Proof.
  unfold names. induction inputs as [|y l IH]; intros Hnd Hx Hn.
  - by apply elem_of_nil in Hx.
  - simpl in Hnd. destruct (decide (get y "name" = Some n)) as [Hy|Hy].
    + rewrite Hy in Hnd. apply NoDup_cons in Hnd as [Hnotin _].
      assert (filter (λ i, get i "name" = Some n) l = []) as Hnil.
      { apply filter_none. intros z Hz Hzn.
        apply Hnotin, list_elem_of_omap. eauto. }
      rewrite filter_cons_True, Hnil by done.
      apply elem_of_cons in Hx as [->|Hx]; [done|].
      exfalso. apply Hnotin, list_elem_of_omap. eauto.
    + rewrite filter_cons_False by done.
      apply elem_of_cons in Hx as [->|Hx]; [done|].
      apply IH; [|done..].
      destruct (get y "name"); [by apply NoDup_cons in Hnd as [_ ?]|done].
Qed.

Lemma foldl_add_field_size inputs m :
  NoDup (names inputs) →
  (∀ n, n ∈ names inputs → m !! n = None) →
  size (foldl add_field m inputs)
  = (size m + length (filter (λ n, n ≠ "") (names inputs)))%nat.
Proof.
  unfold names. revert m. induction inputs as [|x l IH]; intros m Hnd Hfresh; simpl.
  - lia.
  - simpl in Hnd, Hfresh. unfold add_field at 2.
    destruct (get x "name") as [nm|] eqn:Hx; simpl in *.
    + apply NoDup_cons in Hnd as [Hnotin Hnd].
      destruct (decide (nm = "")) as [->|Hne].
      * rewrite filter_cons_False by (by intros []). simpl.
        apply IH; [done|]. intros n Hn. apply Hfresh. by right.
      * rewrite filter_cons_True by done. simpl.
        apply truthy_spec in Hne as Htr. rewrite Htr, IH; [|done|].
        -- rewrite map_size_insert_None; [by rewrite Nat.add_succ_r|]. apply Hfresh. by left.
        -- intros n Hn. rewrite lookup_insert_ne; [|by intros ->].
           apply Hfresh. by right.
    + by apply IH.
Qed.

Lemma collect_form_data_lookup (form i : node) (n : string) :
  NoDup (names (find_all "input" form)) →
  i ∈ find_all "input" form → get i "name" = Some n → n ≠ "" →
  collect_form_data form !! n = Some (field_value i).
Proof.
  intros Hnd Hin Hn Hne. unfold collect_form_data.
  rewrite foldl_add_field_lookup by done.
  by rewrite (filter_name_unique _ i n).
Qed.

Lemma collect_form_data_origin (form : node) (n v : string) :
  collect_form_data form !! n = Some v →
  ∃ i, i ∈ find_all "input" form ∧ get i "name" = Some n ∧ n ≠ "" ∧ v = field_value i.
Proof.
  intros [Hempty|Hi]%foldl_add_field_dom; [|done].
  by rewrite lookup_empty in Hempty.
Qed.

Lemma collect_form_data_size (form : node) :
  NoDup (names (find_all "input" form)) →
  size (collect_form_data form)
  = length (filter (λ n, n ≠ "") (names (find_all "input" form))).
Proof.
  intros Hnd. unfold collect_form_data.
  rewrite foldl_add_field_size, map_size_empty; [done..|].
  intros n _. apply lookup_empty.
Qed.

(** C10. When several inputs of a form carry the same name, the harvested
    map has one entry for that name, and its value is the value of the last
    of them in document order. *)
Theorem duplicate_names_last_wins (form : node) (n : string) :
  n ≠ "" →
  collect_form_data form !! n
  = (λ i, default "" (get i "value")) <$>
      last (filter (λ i, get i "name" = Some n) (find_all "input" form)).
Proof.
  intros Hne. unfold collect_form_data.
  rewrite foldl_add_field_lookup by done.
  destruct (last _); [done|]. apply lookup_empty.
Qed.

(** ** The navigation *)

(** Unfolds the computations down to the oracles and splits on what each
    oracle and each test yields, one path of the program per goal. *)
Ltac unfold_M :=
  unfold try_except, mbind, M_mbind, M_bind, mret, M_mret, M_ret,
    call, session_request, print, emit, get_self, raise_for_status, raise,
    set_last_state in *.

Ltac split_exn :=
  match goal with
  | |- context [is_RequestException ?x] => is_var x; destruct x
  | |- context [is_Exception ?x] => is_var x; destruct x
  end.

Ltac split_path :=
  match goal with
  | |- context [match ?X with _ => _ end] =>
      lazymatch X with
      | context [match _ with _ => _ end] => fail
      | _ => destruct X eqn:?
      end
  end.

Ltac explore :=
  repeat (cbn -[form_url collect_form_data find_weiter_button find_parent str_in
                String.append no_appointments_text Z.leb Z.ltb http_error_msg
                email_body email_subject should_notify] in *;
          try first [split_exn | split_path]).

Ltac open_check :=
  unfold result, state_after, trace, check_appointments, check_appointments_body,
    check_appointments_handler; unfold_M.

(** Rewrites the recorded answers of the oracles into [H]. *)
Ltac use_answers H :=
  repeat match goal with
  | Heq : _ = Val _ |- _ => tryif constr_eq Heq H then fail else rewrite Heq in H
  | Heq : _ = Raise _ |- _ => tryif constr_eq Heq H then fail else rewrite Heq in H
  end.

Ltac status_facts :=
  repeat match goal with
  | H : _ && _ = false |- _ => apply andb_false_iff in H as [H|H]
  | H : _ && _ = true |- _ => apply andb_true_iff in H as [? ?]
  end.

Lemma Forall_elem {A} (P : A → Prop) (l : list A) :
  Forall P l → ∀ x, x ∈ l → P x.
Proof. apply Forall_forall. Qed.

(** Proves a property of every event of an explicit trace, event by event. *)
Ltac each_event tac :=
  refine (Forall_elem _ _ _); repeat (apply List.Forall_cons; [tac|]);
  apply List.Forall_nil.




Lemma post_in_posts (t : list event) target data :
  HttpPost target data ∈ t → HttpPost target data ∈ posts t.
Proof.
  intros Hin. apply list_elem_of_In, filter_In. by split; [apply list_elem_of_In|].
Qed.

Lemma tag_matches_without_id (n : node) :
  tag_matches "input" [("type", "submit"); ("value", "Weiter"); ("id", "WeiterButton")] n = true →
  tag_matches "input" [("type", "submit"); ("value", "Weiter")] n = true.
Proof.
  unfold tag_matches. cbn [forallb fst snd].
  rewrite !andb_true_iff. tauto.
Qed.

Lemma find_weiter_button_Some (soup : node) (el : element) :
  find_weiter_button soup = Some el → has_weiter_button soup.
Proof.
  unfold find_weiter_button, find. intros Hfind. exists el.
  destruct (head (filter _ _)) as [el'|] eqn:Hid in Hfind.
  - injection Hfind as ->.
    apply head_Some_elem_of, list_elem_of_filter in Hid as [Hm Hin].
    split; [done|]. by apply tag_matches_without_id.
  - by apply head_Some_elem_of, list_elem_of_filter in Hfind as [Hm Hin].
Qed.

Lemma good_status_passes (r : response) :
  good_status r →
  (400 <=? status_code r) && (status_code r <? 500) = false
  ∧ (500 <=? status_code r) && (status_code r <? 600) = false.
Proof.
  unfold good_status. intros Hok.
  split; apply andb_false_iff; rewrite Z.leb_gt, Z.ltb_ge; lia.
Qed.

Lemma passes_good_status (r : response) :
  (400 <=? status_code r) && (status_code r <? 500) = false →
  (500 <=? status_code r) && (status_code r <? 600) = false →
  good_status r.
Proof.
  unfold good_status. rewrite !andb_false_iff, !Z.leb_gt, !Z.ltb_ge. lia.
Qed.

(** Runs the program along the path that the hypotheses fix: each test whose
    outcome is a hypothesis is replaced by that outcome. *)
Ltac step_known :=
  match goal with
  | H : ?lhs = _ |- context [?lhs] => rewrite H
  end.

Ltac run_known :=
  repeat (cbn -[form_url collect_form_data find_weiter_button find_parent str_in
                String.append no_appointments_text Z.leb Z.ltb http_error_msg
                email_body email_subject should_notify];
          try step_known).

Ltac served Hserved :=
  destruct Hserved as (start & cookie & Hstart & [Hs1 Hs2]%good_status_passes
                       & Hcookie & Htruthy%truthy_spec & Hpage
                       & [Hp1 Hp2]%good_status_passes).

Section Navigation.

Context (html_parser : string → parsed) (lower : string → string).

(** The check changes the jar of the session and nothing else: the jar is
    what its requests leave, one after the other. *)
Lemma check_appointments_state (e : env) (s : checker) :
  state_after (check_appointments html_parser lower e s)
  = with_cookies s
      (jar_after e (trace (check_appointments html_parser lower e s)) (cookies (session s))).
Proof. open_check. explore; reflexivity. Qed.

Lemma check_appointments_fields (e : env) (s : checker) :
  base_url (state_after (check_appointments html_parser lower e s)) = base_url s
  ∧ start_url (state_after (check_appointments html_parser lower e s)) = start_url s
  ∧ final_url (state_after (check_appointments html_parser lower e s)) = final_url s
  ∧ email_config (state_after (check_appointments html_parser lower e s)) = email_config s
  ∧ last_state (state_after (check_appointments html_parser lower e s)) = last_state s
  ∧ headers (session (state_after (check_appointments html_parser lower e s)))
    = headers (session s).
Proof. rewrite check_appointments_state. by split_and!. Qed.

(** The answers of a round are given for the arguments of the calls, so what
    the check returns and what it calls are fixed by the three URLs of the
    object. *)
Lemma check_appointments_same_urls (e : env) (s s' : checker) :
  base_url s = base_url s' → start_url s = start_url s' → final_url s = final_url s' →
  result (check_appointments html_parser lower e s)
  = result (check_appointments html_parser lower e s')
  ∧ trace (check_appointments html_parser lower e s)
    = trace (check_appointments html_parser lower e s').
Proof.
  destruct s as [b u f c [h j] l], s' as [b' u' f' c' [h' j'] l'].
  cbn [base_url start_url final_url]. intros <- <- <-.
  open_check. explore; split; reflexivity.
Qed.

(** The check sends no mail and does not sleep. *)
Lemma check_appointments_attempts (e : env) (s : checker) :
  attempts (trace (check_appointments html_parser lower e s)) = 0%nat.
Proof. open_check. explore; reflexivity. Qed.

(** Only a signal leaves the check as an exception. *)
Lemma check_appointments_raises (e : env) (s : checker) (x : exn) :
  result (check_appointments html_parser lower e s) = Raise x →
  x = KeyboardInterrupt ∧
  ∃ ev, ev ∈ trace (check_appointments html_parser lower e s) ∧ raised e ev = Some x.
Proof.
  open_check. explore; intros Hres; try discriminate Hres; injection Hres as <-.
  all: split; [reflexivity|].
  all: match goal with
       | H : http_get _ ?u ?c = Raise _ |- _ =>
           exists (HttpGet u c); split; [|cbn [raised]; by rewrite H]
       | H : http_post _ ?u ?d = Raise _ |- _ =>
           exists (HttpPost u d); split; [|cbn [raised]; by rewrite H]
       end.
  all: rewrite !elem_of_cons; auto 10.
Qed.

Lemma check_appointments_returns (e : env) (s : checker) :
  no_interrupt e →
  ∃ flag msg, result (check_appointments html_parser lower e s) = Val (flag, msg).
Proof.
  intros Hcalm. destruct (result _) as [[flag msg]|x] eqn:Hres; [eauto|].
  apply check_appointments_raises in Hres as [-> (ev & _ & Hev)].
  by apply Hcalm in Hev.
Qed.

(** What a submission in the trace was built from. *)
Lemma post_inv (e : env) (s : checker) target data :
  HttpPost target data ∈ trace (check_appointments html_parser lower e s) →
  ∃ cookie r soup button form,
    http_get e (final_url s) (Some cookie) = Val r
    ∧ html_parser (text r) = Parsed soup
    ∧ find_weiter_button soup = Some button
    ∧ find_parent "form" button = Some form
    ∧ target = form_url (base_url s) (default "" (get form "action"))
    ∧ data = collect_form_data form.
Proof.
  open_check. explore; intros Hin%post_in_posts;
    cbn [posts List.filter is_post] in Hin;
    try (by apply elem_of_nil in Hin);
    apply list_elem_of_singleton in Hin; injection Hin as -> ->;
    eexists _, _, _, _, _; split_and!; try eassumption; reflexivity.
Qed.


(** C3. Once the form has been submitted and the final page has come back
    without an error status, the result depends on one thing only: a body
    that contains the fully-booked sentence gives
    [(False, "No appointments available")], any other body gives
    [(True, "APPOINTMENTS AVAILABLE! ...")]. *)
Theorem final_page_classification (e : env) (s : checker) target data (r : response) :
  HttpPost target data ∈ trace (check_appointments html_parser lower e s) →
  http_post e target data = Val r →
  ¬ (400 ≤ status_code r < 600) →
  ((∃ pre post, text r = pre +:+ no_appointments_text +:+ post) →
     result (check_appointments html_parser lower e s)
     = Val (false, "❌ No appointments available"))
  ∧ ((¬ ∃ pre post, text r = pre +:+ no_appointments_text +:+ post) →
     result (check_appointments html_parser lower e s)
     = Val (true, "✅ APPOINTMENTS AVAILABLE! Check immediately: "
                  +:+ base_url s +:+ "/suggest")).
Proof.
  rewrite <-str_in_spec. open_check.
  explore; intros Hin%post_in_posts Hpost Hst;
    cbn [posts List.filter is_post] in Hin;
    try (by apply elem_of_nil in Hin);
    apply list_elem_of_singleton in Hin; injection Hin as -> ->;
    use_answers Hpost; try discriminate Hpost; injection Hpost as <-.
  all: try (exfalso; status_facts; lia).
  all: match goal with H : str_in _ _ = _ |- _ => rewrite H end.
  all: split; [intros Hyes | intros Hnot];
    first [reflexivity | discriminate Hyes | exfalso; apply Hnot; reflexivity].
Qed.


(** C5. The map submitted by the POST is harvested from the form that
    encloses the Weiter button: every entry comes from an input of that form
    with a non-empty name, and when the names are pairwise distinct every
    such input has its entry, holding its value or the empty string when it
    has no value attribute, and the map has exactly as many entries as there
    are such inputs. *)
Theorem form_fields_forwarded (e : env) (s : checker) target data :
  HttpPost target data ∈ trace (check_appointments html_parser lower e s) →
  ∃ cookie r soup button form,
    http_get e (final_url s) (Some cookie) = Val r
    ∧ html_parser (text r) = Parsed soup
    ∧ find_weiter_button soup = Some button
    ∧ find_parent "form" button = Some form
    ∧ (∀ n v, data !! n = Some v →
         ∃ i, i ∈ find_all "input" form ∧ get i "name" = Some n ∧ n ≠ ""
              ∧ v = default "" (get i "value"))
    ∧ (NoDup (names (find_all "input" form)) →
         (∀ i n, i ∈ find_all "input" form → get i "name" = Some n → n ≠ "" →
                 data !! n = Some (default "" (get i "value")))
         ∧ size data = length (filter (λ n, n ≠ "") (names (find_all "input" form)))).
Proof.
  intros (cookie & r & soup & button & form & Hget & Hparse & Hbutton & Hform & _ & ->)%post_inv.
  exists cookie, r, soup, button, form. split_and!; [done..| |].
  - apply collect_form_data_origin.
  - intros Hnd. split.
    + intros i n. by apply collect_form_data_lookup.
    + by apply collect_form_data_size.
Qed.

(** C6. The submission URL is the base URL followed by the form action, with
    a slash put between them exactly when the action does not start with
    one; this is the URL every POST of the check goes to. *)
Theorem form_url_resolution (e : env) (s : checker) (base action : string) :
  ((∃ rest, action = "/" +:+ rest) → form_url base action = base +:+ action)
  ∧ ((¬ ∃ rest, action = "/" +:+ rest) →
     form_url base action = base +:+ "/" +:+ action)
  ∧ form_url "https://example.org" "submit.php" = "https://example.org/submit.php"
  ∧ form_url "https://example.org" "/x" = "https://example.org/x"
  ∧ (∀ target data,
       HttpPost target data ∈ trace (check_appointments html_parser lower e s) →
       ∃ form, target = form_url (base_url s) (default "" (get form "action"))).
Proof.
  unfold form_url at 1 2. rewrite <-startswith_spec. split_and!.
  - by intros ->.
  - by intros ->%not_true_is_false.
  - reflexivity.
  - reflexivity.
  - intros target data (_ & _ & _ & _ & form & _ & _ & _ & _ & -> & _)%post_inv.
    by exists form.
Qed.

End Navigation.

(** ** The notification *)

Ltac open_send :=
  unfold result, state_after, trace, send_email, send_email_body, send_email_handler,
    with_smtp, smtp_exit; unfold_M.

(** Closes a path on which an oracle raised [KeyboardInterrupt] although no
    signal arrives. *)
Ltac absurd_signal Hcalm ev H :=
  exfalso; specialize (Hcalm ev KeyboardInterrupt); cbn [raised] in Hcalm;
  rewrite H in Hcalm; specialize (Hcalm eq_refl); discriminate Hcalm.

Ltac no_smtp_signal Hcalm :=
  try match goal with
  | H : smtp_connect _ ?h ?p = Raise KeyboardInterrupt |- _ =>
      absurd_signal Hcalm (SmtpConnect h p) H
  | H : smtp_starttls _ = Raise KeyboardInterrupt |- _ =>
      absurd_signal Hcalm SmtpStartTls H
  | H : smtp_login _ ?u ?p = Raise KeyboardInterrupt |- _ =>
      absurd_signal Hcalm (SmtpLogin u p) H
  | H : smtp_send_message _ ?m = Raise KeyboardInterrupt |- _ =>
      absurd_signal Hcalm (SmtpSendMessage m) H
  | H : smtp_quit _ = Raise KeyboardInterrupt |- _ =>
      absurd_signal Hcalm SmtpQuit H
  end.

(** Names the call whose exception the handler of [send_email] reports. *)
Ltac reported_failure :=
  match goal with
  | H : smtp_quit _ = Raise ?x |- _ => exists SmtpQuit, x
  | H : smtp_connect _ ?h ?p = Raise ?x |- _ => exists (SmtpConnect h p), x
  | H : smtp_starttls _ = Raise ?x |- _ => exists SmtpStartTls, x
  | H : smtp_login _ ?u ?p = Raise ?x |- _ => exists (SmtpLogin u p), x
  | H : smtp_send_message _ ?m = Raise ?x |- _ => exists (SmtpSendMessage m), x
  end.

Lemma send_email_state (e : env) (s : checker) subject body :
  state_after (send_email e subject body s) = s.
Proof. open_send. explore; reflexivity. Qed.

Lemma send_email_attempts (e : env) (s : checker) subject body :
  attempts (trace (send_email e subject body s)) = 1%nat.
Proof. open_send. explore; reflexivity. Qed.

Lemma send_email_raises (e : env) (s : checker) subject body x :
  result (send_email e subject body s) = Raise x →
  x = KeyboardInterrupt ∧
  ∃ ev, ev ∈ trace (send_email e subject body s) ∧ raised e ev = Some x.
Proof.
  open_send. explore; intros Hres; try discriminate Hres; injection Hres as <-.
  all: split; [reflexivity|].
  all: match goal with
       | H : smtp_quit _ = Raise KeyboardInterrupt |- _ =>
           exists SmtpQuit; split; [|cbn [raised]; by rewrite H]
       | H : smtp_connect _ ?h ?p = Raise KeyboardInterrupt |- _ =>
           exists (SmtpConnect h p); split; [|cbn [raised]; by rewrite H]
       | H : smtp_starttls _ = Raise KeyboardInterrupt |- _ =>
           exists SmtpStartTls; split; [|cbn [raised]; by rewrite H]
       | H : smtp_login _ ?u ?p = Raise KeyboardInterrupt |- _ =>
           exists (SmtpLogin u p); split; [|cbn [raised]; by rewrite H]
       | H : smtp_send_message _ ?m = Raise KeyboardInterrupt |- _ =>
           exists (SmtpSendMessage m); split; [|cbn [raised]; by rewrite H]
       end.
  all: rewrite !elem_of_cons; auto 10.
Qed.

(** C7. When no signal arrives, [send_email] returns a boolean and leaves the
    object as it was.  If any step of the SMTP session raised, the boolean is
    [False] and the last line printed is the diagnostic for an exception
    that a step raised; if no step raised it is [True] and the last line
    confirms the send. *)
Theorem send_email_never_raises (e : env) (s : checker) (subject body : string) :
  no_interrupt e →
  ∃ sent,
    result (send_email e subject body s) = Val sent
    ∧ state_after (send_email e subject body s) = s
    ∧ ((sent = false
        ∧ ∃ ev x, ev ∈ trace (send_email e subject body s)
                  ∧ raised e ev = Some x
                  ∧ last (trace (send_email e subject body s))
                    = Some (EPrint ("❌ Failed to send email: " +:+ str_exn x)))
       ∨ (sent = true
          ∧ (∀ ev, ev ∈ trace (send_email e subject body s) → raised e ev = None)
          ∧ last (trace (send_email e subject body s))
            = Some (EPrint ("✉️ Email sent: " +:+ subject)))).
Proof.
  intros Hcalm. open_send. explore; no_smtp_signal Hcalm.
  all: eexists; split; [reflexivity|]; split; [reflexivity|].
  all: first
    [ right; split; [reflexivity|]; split; [|reflexivity];
      each_event ltac:(cbn [raised];
                       repeat match goal with H : _ = Val _ |- _ => rewrite H end;
                       reflexivity)
    | left; split; [reflexivity|]; reported_failure; split_and!;
      [ rewrite !elem_of_cons; auto 10
      | cbn [raised]; match goal with H : _ = Raise _ |- _ => by rewrite H end
      | reflexivity ] ].
Qed.

(** ** One check *)

Lemma attempts_app (t1 t2 : list event) :
  attempts (t1 ++ t2) = (attempts t1 + attempts t2)%nat.
Proof. unfold attempts. by rewrite List.filter_app, length_app. Qed.

Lemma sleeps_app (t1 t2 : list event) :
  sleeps (t1 ++ t2) = (sleeps t1 + sleeps t2)%nat.
Proof. unfold sleeps. by rewrite List.filter_app, length_app. Qed.

Lemma attempts_cons (ev : event) (t : list event) :
  attempts (ev :: t) = ((if is_connect ev then 1 else 0) + attempts t)%nat.
Proof. unfold attempts. cbn [List.filter]. by destruct (is_connect ev). Qed.

Ltac count_attempts :=
  cbn [fst snd]; repeat (rewrite attempts_cons || rewrite attempts_app).

(** The attributes a changed jar leaves alone. *)
Ltac own_fields :=
  repeat match goal with
  | |- context [last_state (with_cookies ?s ?j)] =>
      change (last_state (with_cookies s j)) with (last_state s)
  | |- context [email_body (with_cookies ?s ?j) ?e ?m] =>
      change (email_body (with_cookies s j) e m) with (email_body s e m)
  end.

Section Notification.

Context (html_parser : string → parsed) (lower : string → string).

(** Opens [run_once] on the outcome of its check: the state after the check
    is [s] with some jar [j]. *)
Ltac open_run_once e s :=
  unfold run_once; unfold_M;
  pose proof (check_appointments_state html_parser lower e s) as Hstate;
  pose proof (check_appointments_attempts html_parser lower e s) as Hattempts;
  unfold state_after, result, trace in *;
  destruct (check_appointments html_parser lower e s) as [[checked s1] t1];
  cbn [fst snd] in *;
  generalize dependent (jar_after e t1 (cookies (session s))); intros j Hstate;
  subst s1.

Lemma run_once_attempts (e : env) (s : checker) :
  attempts (trace (run_once html_parser lower e s))
  = match result (check_appointments html_parser lower e s) with
    | Val (true, _) => if bool_decide (last_state s = Some true) then 0%nat else 1%nat
    | _ => 0%nat
    end.
Proof.
  open_run_once e s.
  destruct checked as [[[] msg]|x]; cbn [fst snd app]; own_fields;
    unfold should_notify; cbn [andb].
  - case_bool_decide; cbn [negb].
    + count_attempts. by rewrite Hattempts.
    + pose proof (send_email_attempts e (with_cookies s j) email_subject
                    (email_body (with_cookies s j) e msg)) as Hsend.
      unfold trace in Hsend.
      destruct (send_email _ _ _ _) as [[[sent|x] s2] t2]; cbn [fst snd] in *;
        count_attempts; by rewrite Hattempts, Hsend.
  - count_attempts. by rewrite Hattempts.
  - count_attempts. by rewrite Hattempts.
Qed.

(** What a call of [run_once] that returns leaves behind. *)
Lemma run_once_returns (e : env) (s : checker) (a : bool) :
  result (run_once html_parser lower e s) = Val a →
  state_after (run_once html_parser lower e s)
  = with_last_state (state_after (check_appointments html_parser lower e s)) (Some a)
  ∧ ∃ msg, result (check_appointments html_parser lower e s) = Val (a, msg).
Proof.
  unfold run_once; unfold_M. unfold state_after, result, trace.
  destruct (check_appointments html_parser lower e s) as [[checked s1] t1].
  cbn [fst snd].
  destruct checked as [[flag msg]|x]; cbn [fst snd app]; [|done].
  destruct (should_notify _ _).
  - pose proof (send_email_state e s1 email_subject (email_body s1 e msg)) as Hsend.
    unfold state_after in Hsend.
    destruct (send_email _ _ _ _) as [[[sent|x] s2] t2]; cbn [fst snd] in *; [|done].
    intros [= <-]. subst s2. eauto.
  - cbn [fst snd]. intros [= <-]. eauto.
Qed.

(** Only a signal leaves [run_once] as an exception. *)
Lemma run_once_raises (e : env) (s : checker) (x : exn) :
  result (run_once html_parser lower e s) = Raise x →
  x = KeyboardInterrupt ∧ ¬ no_interrupt e.
Proof.
  unfold run_once; unfold_M.
  pose proof (check_appointments_raises html_parser lower e s) as Hcheck.
  unfold state_after, result, trace in *.
  destruct (check_appointments html_parser lower e s) as [[checked s1] t1].
  cbn [fst snd] in *.
  destruct checked as [[flag msg]|y]; cbn [fst snd app].
  - destruct (should_notify _ _); [|done].
    pose proof (send_email_raises e s1 email_subject (email_body s1 e msg)) as Hsend.
    unfold result, trace in Hsend.
    destruct (send_email _ _ _ _) as [[[sent|y] s2] t2]; cbn [fst snd] in *; [done|].
    intros [= ->]. destruct (Hsend x eq_refl) as [-> (ev & _ & Hev)].
    split; [done|]. intros Hcalm. by apply Hcalm in Hev.
  - intros [= ->]. destruct (Hcheck x eq_refl) as [-> (ev & _ & Hev)].
    split; [done|]. intros Hcalm. by apply Hcalm in Hev.
Qed.

Lemma run_once_calm (e : env) (s : checker) :
  no_interrupt e →
  ∃ flag msg,
    result (check_appointments html_parser lower e s) = Val (flag, msg)
    ∧ result (run_once html_parser lower e s) = Val flag
    ∧ state_after (run_once html_parser lower e s)
      = with_last_state (state_after (check_appointments html_parser lower e s))
          (Some flag).
Proof.
  intros Hcalm.
  destruct (result (run_once html_parser lower e s)) as [a|x] eqn:Hres.
  - apply run_once_returns in Hres as [Hstate [msg Hcheck]]. eauto.
  - by apply run_once_raises in Hres as [_ []].
Qed.

(** [run_once] assigns to [last_state] only, and the session keeps the jar
    the check left: the notification makes no request. *)
Lemma run_once_fields (e : env) (s : checker) :
  base_url (state_after (run_once html_parser lower e s)) = base_url s
  ∧ start_url (state_after (run_once html_parser lower e s)) = start_url s
  ∧ final_url (state_after (run_once html_parser lower e s)) = final_url s
  ∧ email_config (state_after (run_once html_parser lower e s)) = email_config s
  ∧ session (state_after (run_once html_parser lower e s))
    = session (state_after (check_appointments html_parser lower e s))
  ∧ (∀ x, result (run_once html_parser lower e s) = Raise x →
          last_state (state_after (run_once html_parser lower e s)) = last_state s).
Proof.
  open_run_once e s.
  destruct checked as [[flag msg]|y]; cbn [fst snd app].
  - destruct (should_notify _ _).
    + pose proof (send_email_state e (with_cookies s j) email_subject
                    (email_body (with_cookies s j) e msg)) as Hsend.
      unfold state_after in Hsend.
      destruct (send_email _ _ _ _) as [[[sent|y] s2] t2]; cbn [fst snd] in *; subst s2.
      all: split_and!; try reflexivity;
        try (intros x Hx; first [discriminate Hx | reflexivity]).
    + cbn [fst snd]. split_and!; try reflexivity; try (intros x Hx; discriminate Hx).
  - split_and!; try reflexivity; try (intros x _; reflexivity).
Qed.

End Notification.

(** ** The loop *)

Lemma sleeps_cons (ev : event) (t : list event) :
  sleeps (ev :: t) = ((if is_sleep ev then 1 else 0) + sleeps t)%nat.
Proof. unfold sleeps. cbn [List.filter]. by destruct (is_sleep ev). Qed.

Ltac count_sleeps :=
  cbn [fst snd]; repeat (rewrite sleeps_cons || rewrite sleeps_app).

Lemma no_interrupt_sleep (e : env) (secs : Z) :
  no_interrupt e → sleep_interrupted e secs = false.
Proof.
  intros Hcalm. specialize (Hcalm (Sleep secs) KeyboardInterrupt).
  cbn [raised] in Hcalm. destruct (sleep_interrupted e secs); [|done].
  by specialize (Hcalm eq_refl).
Qed.

Lemma send_email_sleeps (e : env) (s : checker) subject body :
  sleeps (trace (send_email e subject body s)) = 0%nat.
Proof. open_send. explore; reflexivity. Qed.

(** ** The sleep *)

Lemma sleep_error_Exception (e : env) (secs : Z) (x : exn) :
  sleep_error e secs = Some x → is_Exception x = true.
Proof.
  unfold sleep_error. destruct (_ || _); [by intros [= <-]|].
  destruct (secs <? 0); [by intros [= <-]|].
  destruct (_ <? _); [by intros [= <-]|discriminate].
Qed.

(** The sleeps that [time.sleep] takes. *)
Lemma sleep_error_None (e : env) (secs : Z) :
  0 ≤ secs ≤ Z.min sleep_max (sleep_limit e) → sleep_error e secs = None.
Proof.
  unfold sleep_error. intros Hsecs.
  destruct (Z.ltb_spec secs (- sleep_max)); [lia|].
  destruct (Z.ltb_spec sleep_max secs); [lia|].
  destruct (Z.ltb_spec secs 0); [lia|].
  destruct (Z.ltb_spec (sleep_limit e) secs); [lia|reflexivity].
Qed.

(** The recovery sleep is one of them. *)
Lemma sleep_error_60 (e : env) : sleep_error e 60 = None.
Proof. apply sleep_error_None. unfold sleep_limit, sleep_max. lia. Qed.

Lemma sleep_error_negative (e : env) (secs : Z) :
  - sleep_max ≤ secs < 0 →
  sleep_error e secs = Some (OtherException "sleep length must be non-negative").
Proof.
  unfold sleep_error. intros Hsecs.
  destruct (Z.ltb_spec secs (- sleep_max)); [lia|].
  destruct (Z.ltb_spec sleep_max secs); [lia|].
  destruct (Z.ltb_spec secs 0); [reflexivity|lia].
Qed.

Lemma sleep_error_overflow (e : env) (secs : Z) :
  secs < - sleep_max ∨ sleep_max < secs →
  sleep_error e secs
  = Some (OtherException "timestamp too large to convert to C _PyTime_t").
Proof.
  unfold sleep_error. intros Hsecs.
  destruct (Z.ltb_spec secs (- sleep_max)); [reflexivity|].
  destruct (Z.ltb_spec sleep_max secs); [reflexivity|lia].
Qed.

Lemma sleep_error_refused (e : env) (secs : Z) :
  sleep_limit e < secs ≤ sleep_max →
  sleep_error e secs = Some (OtherException "[Errno 22] Invalid argument").
Proof.
  unfold sleep_error. intros Hsecs.
  assert (60 ≤ sleep_limit e) by (unfold sleep_limit; lia).
  destruct (Z.ltb_spec secs (- sleep_max)); [unfold sleep_max in *; lia|].
  destruct (Z.ltb_spec sleep_max secs); [lia|].
  destruct (Z.ltb_spec secs 0); [lia|].
  destruct (Z.ltb_spec (sleep_limit e) secs); [reflexivity|lia].
Qed.

(** ** The guard of the loop *)

Lemma loop_guard_ok (e : env) (body : M ()) (s : checker) :
  result (body s) = Val () →
  loop_guard e body s = (Val true, state_after (body s), trace (body s)).
Proof.
  unfold loop_guard, result, state_after, trace. unfold_M.
  destruct (body s) as [[r s'] t]. cbn [fst snd]. intros ->.
  by rewrite app_nil_r.
Qed.

Lemma loop_guard_exception (e : env) (body : M ()) (s : checker) (x : exn) :
  result (body s) = Raise x → is_Exception x = true →
  loop_guard e body s
  = (if sleep_interrupted e 60 then Raise KeyboardInterrupt else Val true,
     state_after (body s),
     trace (body s) ++ [EPrint ("⚠️ Unexpected error: " +:+ str_exn x); Sleep 60]).
Proof.
  unfold loop_guard, result, state_after, trace, time_sleep. unfold_M.
  destruct (body s) as [[r s'] t]. cbn [fst snd]. intros -> ->.
  rewrite (sleep_error_60 e). by destruct (sleep_interrupted e 60).
Qed.

Lemma loop_guard_signal (e : env) (body : M ()) (s : checker) :
  result (body s) = Raise KeyboardInterrupt →
  loop_guard e body s
  = (Val false, state_after (body s),
     trace (body s) ++ [EPrint (nl +:+ "👋 Stopping checker...")]).
Proof.
  unfold loop_guard, result, state_after, trace. unfold_M.
  destruct (body s) as [[r s'] t]. cbn [fst snd]. by intros ->.
Qed.

Section Loop.

Context (html_parser : string → parsed) (lower : string → string).

Lemma check_appointments_sleeps (e : env) (s : checker) :
  sleeps (trace (check_appointments html_parser lower e s)) = 0%nat.
Proof. open_check. explore; reflexivity. Qed.

Lemma run_once_sleeps (e : env) (s : checker) :
  sleeps (trace (run_once html_parser lower e s)) = 0%nat.
Proof.
  unfold run_once; unfold_M.
  pose proof (check_appointments_sleeps e s) as Hcheck.
  unfold state_after, result, trace in *.
  destruct (check_appointments html_parser lower e s) as [[checked s1] t1].
  cbn [fst snd] in *.
  destruct checked as [[flag msg]|x]; cbn [fst snd app].
  - destruct (should_notify _ _).
    + pose proof (send_email_sleeps e s1 email_subject (email_body s1 e msg)) as Hsend.
      unfold trace in Hsend.
      destruct (send_email _ _ _ _) as [[[sent|x] s2] t2]; cbn [fst snd] in *;
        count_sleeps; by rewrite Hcheck, Hsend.
    + count_sleeps. by rewrite Hcheck.
  - count_sleeps. by rewrite Hcheck.
Qed.

(** The outcome of the body of the [try]: the check, then the sleep. *)
Lemma round_after_check (e : env) (check_interval : Z) (s : checker) (a : bool) :
  result (run_once html_parser lower e s) = Val a →
  (run_once html_parser lower e;; time_sleep e check_interval) s
  = match sleep_error e check_interval with
    | Some x => (Raise x,
                 state_after (run_once html_parser lower e s),
                 trace (run_once html_parser lower e s))
    | None => (if sleep_interrupted e check_interval
               then Raise KeyboardInterrupt else Val (),
               state_after (run_once html_parser lower e s),
               trace (run_once html_parser lower e s) ++ [Sleep check_interval])
    end.
Proof.
  unfold time_sleep, result, state_after, trace. unfold_M.
  destruct (run_once html_parser lower e s) as [[r s'] t]. cbn [fst snd]. intros ->.
  destruct (sleep_error e check_interval); cbn [fst snd]; [by rewrite app_nil_r|reflexivity].
Qed.

Lemma round_interrupted (e : env) (check_interval : Z) (s : checker) (x : exn) :
  result (run_once html_parser lower e s) = Raise x →
  (run_once html_parser lower e;; time_sleep e check_interval) s
  = (Raise x, state_after (run_once html_parser lower e s),
     trace (run_once html_parser lower e s)).
Proof.
  unfold result, state_after, trace. unfold_M.
  destruct (run_once html_parser lower e s) as [[r s'] t]. cbn [fst snd]. by intros ->.
Qed.

(** A round in which no signal arrives: the check, then the sleep of the
    interval, or the logged error of that sleep and the sleep of 60 seconds. *)
Lemma iteration_calm (e : env) (check_interval : Z) (s : checker) :
  no_interrupt e →
  result (iteration html_parser lower e check_interval s) = Val true
  ∧ state_after (iteration html_parser lower e check_interval s)
    = state_after (run_once html_parser lower e s)
  ∧ trace (iteration html_parser lower e check_interval s)
    = trace (run_once html_parser lower e s) ++
      match sleep_error e check_interval with
      | Some x => [EPrint ("⚠️ Unexpected error: " +:+ str_exn x); Sleep 60]
      | None => [Sleep check_interval]
      end.
Proof.
  intros Hcalm. unfold iteration.
  destruct (run_once_calm html_parser lower e s Hcalm) as (flag & msg & _ & Hres & _).
  pose proof (round_after_check e check_interval s flag Hres) as Hround.
  destruct (sleep_error e check_interval) as [x|] eqn:Hsleep.
  - rewrite (loop_guard_exception e _ s x)
      by first [exact (sleep_error_Exception _ _ _ Hsleep) | by rewrite Hround].
    rewrite (no_interrupt_sleep e 60 Hcalm), Hround. by split_and!.
  - rewrite (no_interrupt_sleep e check_interval Hcalm) in Hround.
    rewrite (loop_guard_ok e _ s) by (by rewrite Hround).
    rewrite Hround. by split_and!.
Qed.


End Loop.

Section LoopTheorems.

Context (html_parser : string → parsed) (lower : string → string).

(** The flag of a later check does not depend on the round before it. *)
Lemma check_flag_after_run_once (e e' : env) (s : checker) :
  check_flag html_parser lower e' (state_after (run_once html_parser lower e s))
  = check_flag html_parser lower e' s.
Proof.
  destruct (run_once_fields html_parser lower e s) as (Hbase & Hstart & Hfinal & _).
  unfold check_flag.
  by destruct (check_appointments_same_urls html_parser lower e' _ s Hbase Hstart Hfinal)
    as [-> _].
Qed.

Lemma run_once_transition (e : env) (s : checker) :
  no_interrupt e →
  attempts (trace (run_once html_parser lower e s))
  = transitions_into_available (last_state s) [check_flag html_parser lower e s]
  ∧ last_state (state_after (run_once html_parser lower e s))
    = Some (check_flag html_parser lower e s).
Proof.
  intros Hcalm.
  destruct (run_once_calm html_parser lower e s Hcalm) as (flag & msg & Hcheck & _ & Hstate).
  rewrite run_once_attempts, Hstate. unfold check_flag. rewrite Hcheck. split; [|done].
  cbn [transitions_into_available]. destruct flag; [|done].
  case_bool_decide as Hlast; [by rewrite Hlast|].
  destruct (last_state s) as [[]|]; done.
Qed.

Lemma loop_calm (envs : list env) (check_interval : Z) (s : checker) :
  Forall no_interrupt envs →
  result (loop html_parser lower envs check_interval s) = StillRunning
  ∧ sleeps (trace (loop html_parser lower envs check_interval s)) = length envs
  ∧ attempts (trace (loop html_parser lower envs check_interval s))
    = transitions_into_available (last_state s)
        (map (λ e, check_flag html_parser lower e s) envs).
Proof.
  intros Hcalm. revert s. induction Hcalm as [|e envs He Henvs IH]; intros s; [done|].
  destruct (iteration_calm html_parser lower e check_interval s He) as (Hres & Hstate & Htrace).
  destruct (run_once_transition e s He) as [Hattempts Hlast].
  pose proof (run_once_sleeps html_parser lower e s) as Hquiet.
  specialize (IH (state_after (run_once html_parser lower e s))).
  rewrite Hlast in IH.
  rewrite (map_ext _ _ (λ e', check_flag_after_run_once e e' s)) in IH.
  cbn [loop]. unfold result, state_after, trace in *.
  destruct (iteration html_parser lower e check_interval s) as [[r s'] t].
  cbn [fst snd] in *. subst r s' t.
  destruct (loop html_parser lower envs check_interval _) as [[r' s''] t'].
  cbn [fst snd] in *. destruct IH as (-> & Hsleeps & Hrest). split_and!; [done| |].
  - rewrite !sleeps_app, Hsleeps, Hquiet.
    by destruct (sleep_error e check_interval).
  - rewrite !attempts_app, Hrest, Hattempts.
    cbn [transitions_into_available map].
    destruct (sleep_error e check_interval); cbn [attempts List.filter is_connect length].
    all: by rewrite !Nat.add_0_r.
Qed.





End LoopTheorems.

Section Claims.

Context (html_parser : string → parsed) (lower : string → string).

(** C1. A call of [run_once] attempts a notification exactly when its check
    yields Available and the remembered state is not Available ([None]
    included), and it attempts at most one.  Along the rounds of the loop the
    attempts are the transitions into Available: one for the results
    Available, Available, Available after the initial state, two for
    Available, NotAvailable, Available. *)
Theorem notification_iff_transition
    (e : env) (s : checker) (envs : list env) (check_interval : Z) :
  ((0 < attempts (trace (run_once html_parser lower e s)))%nat ↔
     (∃ msg, result (check_appointments html_parser lower e s) = Val (true, msg))
     ∧ last_state s ≠ Some true)
  ∧ (attempts (trace (run_once html_parser lower e s)) ≤ 1)%nat
  ∧ (Forall no_interrupt envs →
       attempts (trace (loop html_parser lower envs check_interval s))
       = transitions_into_available (last_state s)
           (map (λ e', check_flag html_parser lower e' s) envs))
  ∧ (∀ e1 e2 e3 cfg,
       Forall no_interrupt [e1; e2; e3] →
       map (λ e', check_flag html_parser lower e' (init cfg)) [e1; e2; e3]
       = [true; true; true] →
       attempts (trace (loop html_parser lower [e1; e2; e3] check_interval (init cfg)))
       = 1%nat)
  ∧ (∀ e1 e2 e3 cfg,
       Forall no_interrupt [e1; e2; e3] →
       map (λ e', check_flag html_parser lower e' (init cfg)) [e1; e2; e3]
       = [true; false; true] →
       attempts (trace (loop html_parser lower [e1; e2; e3] check_interval (init cfg)))
       = 2%nat).
Proof.
  split_and!.
  - rewrite run_once_attempts.
    destruct (result (check_appointments html_parser lower e s)) as [[[] msg]|x].
    + case_bool_decide as Hlast; split.
      * lia.
      * by intros [_ []].
      * intros _. eauto.
      * lia.
    + split; [lia|]. by intros [[? [=]] _].
    + split; [lia|]. by intros [[? [=]] _].
  - rewrite run_once_attempts.
    destruct (result (check_appointments html_parser lower e s)) as [[[] msg]|x];
      [case_bool_decide|..]; lia.
  - apply loop_calm.
  - intros e1 e2 e3 cfg Hcalm Hflags.
    destruct (loop_calm html_parser lower _ check_interval (init cfg) Hcalm) as (_ & _ & ->).
    by rewrite Hflags.
  - intros e1 e2 e3 cfg Hcalm Hflags.
    destruct (loop_calm html_parser lower _ check_interval (init cfg) Hcalm) as (_ & _ & ->).
    by rewrite Hflags.
Qed.

(** C9. When no signal arrives, [run_once] returns the flag of its check
    and leaves it in [last_state], whatever became of the notification; so
    after a check that found Available the next call attempts no
    notification, also when the one before failed. *)
Theorem last_state_follows_check (e e' : env) (s : checker) :
  no_interrupt e →
  ∃ flag msg,
    result (check_appointments html_parser lower e s) = Val (flag, msg)
    ∧ result (run_once html_parser lower e s) = Val flag
    ∧ last_state (state_after (run_once html_parser lower e s)) = Some flag
    ∧ (flag = true →
       attempts (trace (run_once html_parser lower e'
                          (state_after (run_once html_parser lower e s)))) = 0%nat).
Proof.
  intros Hcalm.
  destruct (run_once_calm html_parser lower e s Hcalm) as (flag & msg & Hcheck & Hres & Hstate).
  exists flag, msg. split_and!; [done..|by rewrite Hstate|].
  intros ->. rewrite run_once_attempts, Hstate.
  destruct (result (check_appointments html_parser lower e' _)) as [[[] ?]|?]; [|done..].
  by rewrite bool_decide_true.
Qed.


End Claims.

(** ** The properties on the fixtures *)

Lemma site_no_interrupt (location_page final_page : string) :
  no_interrupt (Fixture.site location_page final_page).
Proof.
  intros ev x. destruct ev; cbn [raised Fixture.site http_get http_post smtp_connect
    smtp_starttls smtp_login smtp_send_message smtp_quit sleep_interrupted raised_by];
    try discriminate.
  by case_bool_decide.
Qed.

Lemma site_location_served (location_page final_page : string) :
  location_served (Fixture.site location_page final_page) Fixture.self
    (Fixture.page location_page).
Proof.
  exists (Fixture.page "<html>start</html>"), "cookie_accept=1".
  split_and!.
  - reflexivity.
  - unfold good_status. cbn [status_code Fixture.page]. lia.
  - reflexivity.
  - discriminate.
  - vm_compute. reflexivity.
  - unfold good_status. cbn [status_code Fixture.page]. lia.
Qed.


Lemma with_login_failure_no_interrupt (e : env) :
  no_interrupt e → no_interrupt (Fixture.with_login_failure e).
Proof.
  intros Hcalm ev x. destruct ev; try apply (Hcalm (EPrint line));
    try (by intros [= <-]).
  - apply (Hcalm (HttpGet target cookie)).
  - apply (Hcalm (HttpPost target data)).
  - apply (Hcalm (SmtpConnect host port)).
  - apply (Hcalm SmtpStartTls).
  - apply (Hcalm (SmtpSendMessage m)).
  - apply (Hcalm SmtpQuit).
  - apply (Hcalm (Sleep secs)).
Qed.

Example fixture_form_fields :
  collect_form_data Fixture.form = {[ "a" := "1"; "b" := "" ]}.
Proof. vm_compute. reflexivity. Qed.

Example fixture_available :
  result (check_appointments Fixture.html_parser Fixture.lower Fixture.available Fixture.self)
  = Val (true, "✅ APPOINTMENTS AVAILABLE! Check immediately: https://termine-buergerbuero.dresden.de/suggest").
Proof. vm_compute. reflexivity. Qed.

Example fixture_booked :
  result (check_appointments Fixture.html_parser Fixture.lower Fixture.booked Fixture.self)
  = Val (false, "❌ No appointments available").
Proof. vm_compute. reflexivity. Qed.


Lemma final_page_classification_witness :
  HttpPost "https://termine-buergerbuero.dresden.de/suggest" {[ "a" := "1"; "b" := "" ]}
    ∈ trace (check_appointments Fixture.html_parser Fixture.lower Fixture.booked Fixture.self)
  ∧ http_post Fixture.booked "https://termine-buergerbuero.dresden.de/suggest"
      {[ "a" := "1"; "b" := "" ]}
    = Val (Fixture.page ("<p>" +:+ no_appointments_text +:+ ".</p>"))
  ∧ ¬ (400 ≤ status_code (Fixture.page ("<p>" +:+ no_appointments_text +:+ ".</p>")) < 600)
  ∧ result (check_appointments Fixture.html_parser Fixture.lower Fixture.booked Fixture.self)
    = Val (false, "❌ No appointments available").
Proof.
  assert (HttpPost "https://termine-buergerbuero.dresden.de/suggest" {[ "a" := "1"; "b" := "" ]}
            ∈ trace (check_appointments Fixture.html_parser Fixture.lower
                       Fixture.booked Fixture.self)) as Hin.
  { vm_compute. do 5 right. left. }
  assert (¬ (400 ≤ status_code (Fixture.page ("<p>" +:+ no_appointments_text +:+ ".</p>")) < 600))
    as Hstatus.
  { cbn [status_code Fixture.page]. lia. }
  split_and!; [exact Hin | reflexivity | exact Hstatus |].
  apply (final_page_classification Fixture.html_parser Fixture.lower Fixture.booked
           Fixture.self _ _ _ Hin eq_refl Hstatus).
  by exists "<p>", ".</p>".
Defined.



Lemma form_fields_forwarded_witness :
  HttpPost "https://termine-buergerbuero.dresden.de/suggest" {[ "a" := "1"; "b" := "" ]}
    ∈ trace (check_appointments Fixture.html_parser Fixture.lower Fixture.available Fixture.self)
  ∧ ∀ n v, ({[ "a" := "1"; "b" := "" ]} : gmap string string) !! n = Some v → n ≠ "".
Proof.
  assert (HttpPost "https://termine-buergerbuero.dresden.de/suggest" {[ "a" := "1"; "b" := "" ]}
            ∈ trace (check_appointments Fixture.html_parser Fixture.lower
                       Fixture.available Fixture.self)) as Hin.
  { vm_compute. do 5 right. left. }
  split; [exact Hin|].
  destruct (form_fields_forwarded Fixture.html_parser Fixture.lower Fixture.available
              Fixture.self _ _ Hin)
    as (cookie & r & soup & button & form & _ & _ & _ & _ & Horigin & _).
  intros n v Hn. by destruct (Horigin n v Hn) as (i & _ & _ & Hne & _).
Defined.

Lemma send_email_never_raises_witness :
  no_interrupt (Fixture.with_login_failure Fixture.available)
  ∧ result (send_email (Fixture.with_login_failure Fixture.available)
              "subject" "body" Fixture.self) = Val false.
Proof.
  assert (no_interrupt (Fixture.with_login_failure Fixture.available)) as Hcalm
    by apply with_login_failure_no_interrupt, site_no_interrupt.
  split; [exact Hcalm|].
  destruct (send_email_never_raises (Fixture.with_login_failure Fixture.available)
              Fixture.self "subject" "body" Hcalm)
    as (sent & Hres & _ & [[-> _]|(_ & Hnone & _)]); [exact Hres|].
  specialize (Hnone (SmtpLogin (Some "sender@example.org") (Some "secret"))).
  discriminate Hnone. vm_compute. do 2 right. left.
Defined.

Lemma last_state_follows_check_witness :
  no_interrupt (Fixture.with_login_failure Fixture.available)
  ∧ last_state (state_after (run_once Fixture.html_parser Fixture.lower
                  (Fixture.with_login_failure Fixture.available) Fixture.self)) = Some true
  ∧ attempts (trace (run_once Fixture.html_parser Fixture.lower Fixture.available
                (state_after (run_once Fixture.html_parser Fixture.lower
                   (Fixture.with_login_failure Fixture.available) Fixture.self)))) = 0%nat.
Proof.
  assert (no_interrupt (Fixture.with_login_failure Fixture.available)) as Hcalm
    by apply with_login_failure_no_interrupt, site_no_interrupt.
  split; [exact Hcalm|].
  destruct (last_state_follows_check Fixture.html_parser Fixture.lower
              (Fixture.with_login_failure Fixture.available) Fixture.available
              Fixture.self Hcalm)
    as (flag & msg & Hcheck & _ & Hstate & Hnext).
  assert (flag = true) as ->.
  { vm_compute in Hcheck. by injection Hcheck as <- _. }
  split; [exact Hstate | by apply Hnext].
Defined.

Lemma duplicate_names_last_wins_witness :
  "t" ≠ "" ∧ collect_form_data Fixture.form_twice !! "t" = Some "new".
Proof.
  split; [done|].
  rewrite (duplicate_names_last_wins Fixture.form_twice "t") by done.
  vm_compute. reflexivity.
Defined.

Lemma notification_iff_transition_witness :
  attempts (trace (loop Fixture.html_parser Fixture.lower
             [Fixture.available; Fixture.available; Fixture.available] 300
             (init Fixture.cfg))) = 1%nat
  ∧ attempts (trace (loop Fixture.html_parser Fixture.lower
                [Fixture.available; Fixture.booked; Fixture.available] 300
                (init Fixture.cfg))) = 2%nat.
Proof.
  destruct (notification_iff_transition Fixture.html_parser Fixture.lower
              Fixture.available Fixture.self [] 300) as (_ & _ & _ & Honce & Htwice).
  split.
  - apply Honce; [repeat constructor; apply site_no_interrupt|].
    vm_compute. reflexivity.
  - apply Htwice; [repeat constructor; apply site_no_interrupt|].
    vm_compute. reflexivity.
Defined.


Lemma form_url_resolution_witness :
  form_url (base_url Fixture.self) "suggest"
  = "https://termine-buergerbuero.dresden.de/suggest".
Proof.
  destruct (form_url_resolution Fixture.html_parser Fixture.lower Fixture.available
              Fixture.self (base_url Fixture.self) "suggest") as (_ & Hrel & _).
  rewrite Hrel; [reflexivity|]. by intros [rest ?].
Defined.

(** An input whose name attribute is the empty string is in the form, its
    names are pairwise distinct, and the map that is posted has no entry for
    it. *)
Lemma empty_name_counterexample :
  NoDup (names (find_all "input" Fixture.form_empty_name))
  ∧ Tag "input" {[ "name" := ""; "value" := "x" ]} [] ∈ find_all "input" Fixture.form_empty_name
  ∧ get (Tag "input" {[ "name" := ""; "value" := "x" ]} []) "name" = Some ""
  ∧ posts (trace (check_appointments Fixture.html_parser Fixture.lower
                    Fixture.empty_name Fixture.self))
    = [HttpPost "https://termine-buergerbuero.dresden.de/suggest" ∅].
Proof.
  split_and!.
  - vm_compute. repeat constructor. by intros ?%elem_of_nil.
  - vm_compute. left.
  - reflexivity.
  - vm_compute. reflexivity.
Qed.

(** Two inputs that share the empty name leave no entry for it: the loop
    skips a name that is false. *)
Lemma duplicate_empty_names_counterexample :
  length (filter (λ i, get i "name" = Some "") (find_all "input" Fixture.form_unnamed))
  = 2%nat
  ∧ collect_form_data Fixture.form_unnamed !! "" = None.
Proof. split; vm_compute; reflexivity. Qed.

(** * Further properties *)

(** ** The edges of the navigation *)

Section NavigationEdges.

Context (html_parser : string → parsed) (lower : string → string).

(** X1. A start page that comes without a Set-Cookie header, or with an empty
    one, ends the check at once: the result is the session error and the
    start page is the only request made. *)
Theorem missing_cookie_stops_check (e : env) (s : checker) (start : response) :
  http_get e (start_url s) None = Val start →
  good_status start →
  set_cookie start = None ∨ set_cookie start = Some "" →
  result (check_appointments html_parser lower e s)
  = Val (false, "⚠️ Session error - set-cookie was not found")
  ∧ requests (trace (check_appointments html_parser lower e s))
    = [HttpGet (start_url s) None].
Proof.
  intros Hstart [Hs1 Hs2]%good_status_passes [Hcookie|Hcookie];
    open_check; run_known; split; reflexivity.
Qed.

(** X3. When the parser accepts the location page and the lowered text of
    the page contains "fehler" or "error", the check returns [False] with
    the raw page text as its message and submits nothing. *)
Theorem error_page_is_reported
    (e : env) (s : checker) (page : response) (soup : node) :
  location_served e s page →
  html_parser (text page) = Parsed soup →
  str_in "fehler" (lower (text page)) = true ∨ str_in "error" (lower (text page)) = true →
  result (check_appointments html_parser lower e s) = Val (false, text page)
  ∧ posts (trace (check_appointments html_parser lower e s)) = [].
Proof.
  intros Hserved Hparse Herror%orb_true_iff. served Hserved.
  open_check; run_known; split; reflexivity.
Qed.

(** X21. The page is parsed before it is looked at: when the parser rejects
    the location page, the check reports the parser's exception as an error
    during navigation, whatever words the page holds, and submits nothing. *)
Theorem rejected_markup_is_reported
    (e : env) (s : checker) (page : response) (msg : string) :
  location_served e s page →
  html_parser (text page) = Rejected msg →
  result (check_appointments html_parser lower e s)
  = Val (false, "⚠️ Error during navigation: " +:+ msg)
  ∧ posts (trace (check_appointments html_parser lower e s)) = [].
Proof.
  intros Hserved Hparse. served Hserved.
  open_check; run_known; split; reflexivity.
Qed.

(** X4. A location page that the parser accepts, without an error word, that
    lacks the office name or the street name is reported as unexpected, and
    nothing is submitted. *)
Theorem unexpected_location_is_reported
    (e : env) (s : checker) (page : response) (soup : node) :
  location_served e s page →
  html_parser (text page) = Parsed soup →
  str_in "fehler" (lower (text page)) = false →
  str_in "error" (lower (text page)) = false →
  str_in "Ausländerbehörde Dresden 33.41" (text page) = false
  ∨ str_in "Theaterstraße" (text page) = false →
  result (check_appointments html_parser lower e s)
  = Val (false, "⚠️ Could not find expected location information")
  ∧ posts (trace (check_appointments html_parser lower e s)) = [].
Proof.
  intros Hserved Hparse Hfehler Herror Hmarker. served Hserved.
  assert (negb (str_in "Ausländerbehörde Dresden 33.41" (text page))
          || negb (str_in "Theaterstraße" (text page)) = true) as Hmissing.
  { apply orb_true_iff. destruct Hmarker as [->| ->]; auto. }
  open_check; run_known; split; reflexivity.
Qed.

(** X5. A Weiter button that stands in no form is reported as such, and
    nothing is submitted. *)
Theorem button_outside_form_is_reported
    (e : env) (s : checker) (page : response) (soup : node) (button : element) :
  location_served e s page →
  html_parser (text page) = Parsed soup →
  str_in "fehler" (lower (text page)) = false →
  str_in "error" (lower (text page)) = false →
  str_in "Ausländerbehörde Dresden 33.41" (text page) = true →
  str_in "Theaterstraße" (text page) = true →
  find_weiter_button soup = Some button →
  find_parent "form" button = None →
  result (check_appointments html_parser lower e s)
  = Val (false, "⚠️ Could not find form for Weiter button")
  ∧ posts (trace (check_appointments html_parser lower e s)) = [].
Proof.
  intros Hserved Hparse Hfehler Herror Hoffice Hstreet Hbutton Hform. served Hserved.
  open_check; run_known; split; reflexivity.
Qed.

End NavigationEdges.

Lemma request_in_requests (t : list event) (ev : event) :
  is_request ev = true → ev ∈ t → ev ∈ requests t.
Proof.
  intros Hreq Hin. apply list_elem_of_In, filter_In. by split; [apply list_elem_of_In|].
Qed.

Lemma truthy_cookie (c : string) : negb (truthy c) = false → c ≠ "".
Proof. by destruct c. Qed.

(** Splits a membership in an explicit list into its cases. *)
Ltac in_list Hin :=
  repeat (apply elem_of_cons in Hin as [Hin|Hin]);
  try (by apply elem_of_nil in Hin).

Section NavigationPaths.

Context (html_parser : string → parsed) (lower : string → string).

(** X2. The check calls [self.session.get] in two ways: without a
    [headers] argument only for the start URL, and with the argument
    [{"Cookie": c}] only for the location URL, where [c] is the non-empty
    Set-Cookie value of a start page that came with a good status. *)
Theorem location_request_passes_cookie_header
    (e : env) (s : checker) (target : string) (cookie : option string) :
  HttpGet target cookie ∈ trace (check_appointments html_parser lower e s) →
  match cookie with
  | None => target = start_url s
  | Some c =>
      target = final_url s ∧ c ≠ "" ∧
      ∃ start, http_get e (start_url s) None = Val start
               ∧ good_status start ∧ set_cookie start = Some c
  end.
Proof.
  open_check. explore; intros Hin;
    (apply request_in_requests in Hin; [|reflexivity]);
    cbn [requests List.filter is_request] in Hin; in_list Hin;
    try discriminate Hin; simplify_eq; try reflexivity.
  all: split; [reflexivity|]; split; [by apply truthy_cookie|].
  all: eexists; split; [reflexivity|]; split; [by apply passes_good_status|assumption].
Qed.

(** X6. The check reports Available only after the whole flow went through:
    the location page was served and parsed, held no error word and both
    markers, the
    button was found in a form, the form was posted to the resolved URL and
    answered with a good status and a body without the fully-booked
    sentence. *)
Theorem available_is_earned (e : env) (s : checker) (msg : string) :
  result (check_appointments html_parser lower e s) = Val (true, msg) →
  ∃ page soup button form final,
    location_served e s page
    ∧ html_parser (text page) = Parsed soup
    ∧ str_in "fehler" (lower (text page)) = false
    ∧ str_in "error" (lower (text page)) = false
    ∧ str_in "Ausländerbehörde Dresden 33.41" (text page) = true
    ∧ str_in "Theaterstraße" (text page) = true
    ∧ find_weiter_button soup = Some button
    ∧ find_parent "form" button = Some form
    ∧ http_post e (form_url (base_url s) (default "" (get form "action")))
        (collect_form_data form) = Val final
    ∧ good_status final
    ∧ str_in no_appointments_text (text final) = false
    ∧ msg = "✅ APPOINTMENTS AVAILABLE! Check immediately: "
            +:+ base_url s +:+ "/suggest".
Proof.
  open_check. explore; intros Hres; try discriminate Hres.
  injection Hres as <-.
  match goal with
  | Herr : _ || _ = false, Hmark : negb _ || negb _ = false |- _ =>
      apply orb_false_iff in Herr as [Hfehler Herror];
      apply orb_false_iff in Hmark as [Hoffice%negb_false_iff Hstreet%negb_false_iff]
  end.
  eexists _, _, _, _, _. split.
  { eexists _, _. split_and!; try eassumption.
    - by apply passes_good_status.
    - by apply truthy_cookie.
    - by apply passes_good_status. }
  split_and!; try eassumption; [by apply passes_good_status | reflexivity].
Qed.

(** X7. The check assigns to no attribute of the object.  Its requests go
    through the session, whose headers stay and whose cookie jar ends as the
    requests of the check leave it, one after the other.  The check makes no
    SMTP call and never sleeps. *)
Theorem check_only_talks_http (e : env) (s : checker) :
  state_after (check_appointments html_parser lower e s)
  = with_cookies s
      (jar_after e (trace (check_appointments html_parser lower e s))
         (cookies (session s)))
  ∧ smtp_events (trace (check_appointments html_parser lower e s)) = []
  ∧ sleeps (trace (check_appointments html_parser lower e s)) = 0%nat.
Proof. open_check. explore; split_and!; reflexivity. Qed.

(** X8. A request that raises, or that is answered with an error status, is
    the last request of the check. *)
Theorem failed_request_is_last (e : env) (s : checker) (ev : event) :
  ev ∈ requests (trace (check_appointments html_parser lower e s)) →
  (is_Some (raised e ev) ∨ ∃ r, answered e ev = Some r ∧ ¬ good_status r) →
  last (requests (trace (check_appointments html_parser lower e s))) = Some ev.
Proof.
  open_check. explore; intros Hin Hfail;
    cbn [requests List.filter is_request] in Hin; in_list Hin; subst ev;
    try reflexivity; exfalso.
  all: destruct Hfail as [[x Hx]|(r & Hr & Hbad)];
    [ cbn [raised] in Hx; use_answers Hx; discriminate Hx
    | cbn [answered] in Hr; use_answers Hr; injection Hr as <-;
      apply Hbad; by apply passes_good_status ].
Qed.

End NavigationPaths.

(** ** The tree *)

(** Induction on a tree, with the property known for all children. *)
Lemma node_nested_ind (P : node → Prop)
    (Hstring : ∀ s, P (NavigableString s))
    (Htag : ∀ name attrs contents, Forall P contents → P (Tag name attrs contents)) :
    ∀ n, P n.
Proof.
  exact (fix prove (n : node) : P n :=
    match n with
    | NavigableString s => Hstring s
    | Tag name attrs contents =>
        Htag name attrs contents
          ((fix prove_all (l : list node) : Forall P l :=
              match l with
              | [] => @List.Forall_nil _ P
              | c :: l' => @List.Forall_cons _ P c l' (prove c) (prove_all l')
              end) contents)
    end).
Qed.

Lemma walk_unfold (parents : list node) (n : node) :
  walk parents n = (n, parents) :: descendants parents n.
Proof. by destruct n. Qed.

(** The nodes met by a walk do not depend on the ancestors it started with. *)
Lemma walk_nodes (n : node) (parents parents' : list node) :
  (walk parents n).*1 = (walk parents' n).*1.
Proof.
  revert parents parents'. induction n as [s|name attrs contents IH] using node_nested_ind;
    intros parents parents'; [done|].
  cbn [walk fmap list_fmap fst]. f_equal.
  generalize (Tag name attrs contents :: parents) (Tag name attrs contents :: parents').
  intros above above'. induction IH as [|c l Hc _ IHl]; [done|].
  cbn [flat_map]. rewrite !fmap_app. f_equal; [apply Hc | apply IHl].
Qed.

Lemma descendants_nodes (n : node) (parents parents' : list node) :
  (descendants parents n).*1 = (descendants parents' n).*1.
Proof.
  pose proof (walk_nodes n parents parents') as Hwalk.
  rewrite !walk_unfold in Hwalk. by injection Hwalk.
Qed.

Lemma elem_of_flat_map {A B} (f : A → list B) (l : list A) (y : B) :
  y ∈ flat_map f l ↔ ∃ x, x ∈ l ∧ y ∈ f x.
Proof.
  rewrite list_elem_of_In, in_flat_map. setoid_rewrite list_elem_of_In. naive_solver.
Qed.

(** What a walk records as the ancestors of a node: the ancestors it started
    with, below nodes that each have the node among their descendants. *)
Lemma walk_parents (n : node) (parents : list node) (el : element) :
  el ∈ walk parents n →
  ∃ inner, el.2 = inner ++ parents
           ∧ ∀ p, p ∈ inner → el.1 ∈ (descendants [] p).*1.
Proof.
  revert parents el.
  induction n as [s|name attrs contents IH] using node_nested_ind; intros parents el.
  - intros ->%list_elem_of_singleton. exists []. split; [done|]. by intros p ?%elem_of_nil.
  - rewrite walk_unfold. intros [->|Hin]%elem_of_cons.
    { exists []. split; [done|]. by intros p ?%elem_of_nil. }
    cbn [descendants] in Hin. apply elem_of_flat_map in Hin as (c & Hc & Hel).
    rewrite Forall_forall in IH.
    destruct (IH c Hc _ _ Hel) as (inner & Hparents & Hinner).
    exists (inner ++ [Tag name attrs contents]). split.
    + by rewrite Hparents, <-app_assoc.
    + intros p [Hp|Hp%list_elem_of_singleton]%elem_of_app; [by apply Hinner|]. subst p.
      cbn [descendants].
      assert (el.1 ∈ (walk [Tag name attrs contents] c).*1) as Hnode.
      { rewrite (walk_nodes c _ (Tag name attrs contents :: parents)).
        by apply list_elem_of_fmap_2. }
      apply list_elem_of_fmap in Hnode as (el' & -> & Hel').
      apply list_elem_of_fmap_2, elem_of_flat_map. eauto.
Qed.

(** Every recorded ancestor of an element of a document has the element
    among its descendants. *)
Lemma descendants_parents (soup : node) (el : element) :
  el ∈ descendants [] soup → ∀ p, p ∈ el.2 → el.1 ∈ (descendants [] p).*1.
Proof.
  intros Hel p Hp.
  assert (el ∈ walk [] soup) as Hwalk by (rewrite walk_unfold; by right).
  apply walk_parents in Hwalk as (inner & Hparents & Hinner).
  rewrite Hparents, app_nil_r in Hp. by apply Hinner.
Qed.

Lemma find_weiter_button_matches (soup : node) (button : element) :
  find_weiter_button soup = Some button →
  button ∈ descendants [] soup
  ∧ tag_matches "input" [("type", "submit"); ("value", "Weiter")] button.1 = true.
Proof.
  unfold find_weiter_button, find. intros Hfind.
  destruct (head (filter _ _)) as [el'|] eqn:Hid in Hfind.
  - injection Hfind as ->.
    apply head_Some_elem_of, list_elem_of_filter in Hid as [Hm Hin].
    split; [done|]. by apply tag_matches_without_id.
  - by apply head_Some_elem_of, list_elem_of_filter in Hfind as [Hm Hin].
Qed.

Lemma head_filter_is_Some {A} (P : A → Prop) `{∀ x, Decision (P x)} (l : list A) (x : A) :
  x ∈ l → P x → is_Some (head (filter P l)).
Proof.
  intros Hin HP. destruct (filter P l) as [|y l'] eqn:Hfilter; [|by eexists].
  exfalso. by eapply (filter_nil_not_elem_of P l x).
Qed.

Lemma find_is_Some (name : string) (want : list (string * string))
    (soup : node) (el : element) :
  el ∈ descendants [] soup → tag_matches name want el.1 = true →
  is_Some (find name want soup).
Proof. intros Hin Hmatch. unfold find. by apply (head_filter_is_Some _ _ el). Qed.

(** X9. The lookup of the button succeeds exactly when the document holds a
    submit input labelled Weiter; what it returns is such an input of the
    document, and it carries the id WeiterButton whenever some such input of
    the document does. *)
Theorem weiter_button_lookup (soup : node) :
  (has_weiter_button soup ↔ is_Some (find_weiter_button soup))
  ∧ ∀ button, find_weiter_button soup = Some button →
      button ∈ descendants [] soup
      ∧ is_tag "input" button.1 = true
      ∧ get button.1 "type" = Some "submit"
      ∧ get button.1 "value" = Some "Weiter"
      ∧ ((∃ el, el ∈ descendants [] soup
                ∧ tag_matches "input"
                    [("type", "submit"); ("value", "Weiter"); ("id", "WeiterButton")] el.1
                  = true) →
         get button.1 "id" = Some "WeiterButton").
Proof.
  split.
  - split.
    + intros (el & Hin & Hmatch). unfold find_weiter_button.
      destruct (find "input" [_; _; _] soup); [by eexists|].
      by apply (find_is_Some _ _ _ el).
    + intros [button Hfind]. by eapply find_weiter_button_Some.
  - intros button Hfind.
    destruct (find_weiter_button_matches soup button Hfind) as [Hin Hmatch].
    split; [done|]. unfold tag_matches in Hmatch. cbn [forallb fst snd] in Hmatch.
    rewrite !andb_true_iff, !bool_decide_eq_true in Hmatch.
    destruct Hmatch as (Htag & Htype & Hvalue & _). split_and!; [done..|].
    intros (el & Hel & Hid). unfold find_weiter_button in Hfind.
    destruct (find_is_Some _ _ _ el Hel Hid) as [b Hb].
    rewrite Hb in Hfind. injection Hfind as ->.
    apply head_Some_elem_of, list_elem_of_filter in Hb as [Hm _].
    unfold tag_matches in Hm. cbn [forallb fst snd] in Hm.
    rewrite !andb_true_iff, !bool_decide_eq_true in Hm. tauto.
Qed.

(** X10. The form that [find_parent] returns is a form and has the button
    among its inputs, so a button with a name is submitted with the value
    Weiter when the names of the form are pairwise distinct. *)
Theorem weiter_button_is_submitted (soup : node) (button : element) (form : node) :
  find_weiter_button soup = Some button →
  find_parent "form" button = Some form →
  is_tag "form" form = true
  ∧ button.1 ∈ find_all "input" form
  ∧ ∀ nm, get button.1 "name" = Some nm → nm ≠ "" →
          NoDup (names (find_all "input" form)) →
          collect_form_data form !! nm = Some "Weiter".
Proof.
  intros Hfind Hform.
  destruct (find_weiter_button_matches soup button Hfind) as [Hin Hmatch].
  apply head_Some_elem_of, list_elem_of_filter in Hform as [Htag Hparent].
  assert (button.1 ∈ find_all "input" form) as Hinput.
  { apply list_elem_of_filter. split.
    - unfold tag_matches in Hmatch. by apply andb_true_iff in Hmatch as [? _].
    - by apply (descendants_parents soup). }
  split_and!; [done..|].
  intros nm Hname Hne Hnames.
  rewrite (collect_form_data_lookup form button.1 nm) by done.
  unfold field_value, tag_matches in *. cbn [forallb fst snd] in Hmatch.
  rewrite !andb_true_iff, !bool_decide_eq_true in Hmatch.
  destruct Hmatch as (_ & _ & -> & _). done.
Qed.

(** ** The submission URL *)

Section SubmissionUrl.

Context (html_parser : string → parsed) (lower : string → string).

(** X11. The submission URL is always the base URL, a slash and a rest, the
    rest being the action without its leading slash; an empty or missing
    action gives the base URL and a slash; so every POST of the check goes to
    a URL that extends the base URL of the object. *)
Theorem form_url_stays_on_site (e : env) (s : checker) (base action : string) :
  (∃ rest, form_url base action = base +:+ "/" +:+ rest
           ∧ (rest = action ∨ action = "/" +:+ rest))
  ∧ form_url base "" = base +:+ "/"
  ∧ (∀ target data,
       HttpPost target data ∈ trace (check_appointments html_parser lower e s) →
       ∃ rest, target = base_url s +:+ "/" +:+ rest).
Proof.
  assert (∀ b a, ∃ rest, form_url b a = b +:+ "/" +:+ rest
                         ∧ (rest = a ∨ a = "/" +:+ rest)) as Hsite.
  { intros b a. unfold form_url.
    destruct (startswith a "/") eqn:Hslash.
    - apply startswith_spec in Hslash as [rest ->]. exists rest. split; [done|by right].
    - exists a. split; [done|by left]. }
  split_and!; [apply Hsite|done|].
  intros target data (_ & _ & _ & _ & form & _ & _ & _ & _ & -> & _)%post_inv.
  destruct (Hsite (base_url s) (default "" (get form "action"))) as (rest & -> & _).
  by exists rest.
Qed.

End SubmissionUrl.

(** ** The notification and the object *)

Lemma smtp_events_app (t1 t2 : list event) :
  smtp_events (t1 ++ t2) = smtp_events t1 ++ smtp_events t2.
Proof. apply List.filter_app. Qed.

Lemma smtp_events_cons (ev : event) (t : list event) :
  smtp_events (ev :: t) = (if is_smtp ev then [ev] else []) ++ smtp_events t.
Proof. unfold smtp_events. cbn [List.filter]. by destruct (is_smtp ev). Qed.

Lemma smtp_in_smtp_events (t : list event) (ev : event) :
  ev ∈ t → is_smtp ev = true → ev ∈ smtp_events t.
Proof.
  intros Hin Hsmtp. apply list_elem_of_In, filter_In. by split; [apply list_elem_of_In|].
Qed.

Lemma append_assoc (a b c : string) : (a +:+ b) +:+ c = a +:+ b +:+ c.
Proof.
  induction a as [|x a IH]; [done|].
  change (String x ((a +:+ b) +:+ c) = String x (a +:+ b +:+ c)). by rewrite IH.
Qed.

(** X12. The SMTP calls of [send_email], in order: the connection to the
    configured server and port; after it STARTTLS; after that the login with
    the configured sender and password; after that the message from the
    sender to the recipient with the given subject and body; and QUIT last
    whenever the connection was opened, whatever failed in between. *)
Theorem smtp_session_shape (e : env) (s : checker) (subject body : string) :
  smtp_events (trace (send_email e subject body s))
  = SmtpConnect (smtp_server (email_config s)) (smtp_port (email_config s)) ::
    match smtp_connect e (smtp_server (email_config s)) (smtp_port (email_config s)) with
    | Raise _ => []
    | Val _ =>
        SmtpStartTls ::
        match smtp_starttls e with
        | Raise _ => [SmtpQuit]
        | Val _ =>
            SmtpLogin (sender_email (email_config s)) (sender_password (email_config s)) ::
            match smtp_login e (sender_email (email_config s))
                    (sender_password (email_config s)) with
            | Raise _ => [SmtpQuit]
            | Val _ =>
                [SmtpSendMessage
                   {| msg_from := sender_email (email_config s);
                      msg_to := recipient_email (email_config s);
                      msg_subject := subject; msg_body := body |};
                 SmtpQuit]
            end
        end
    end.
Proof. open_send. explore; reflexivity. Qed.

Lemma email_body_shape (s : checker) (e : env) (verdict : string) :
  startswith (email_body s e verdict) verdict = true
  ∧ str_in (base_url s +:+ "/select2?md=1") (email_body s e verdict) = true.
Proof.
  split.
  - apply startswith_spec. unfold email_body. eexists. reflexivity.
  - apply str_in_spec. unfold email_body.
    exists (verdict +:+ nl +:+ nl +:+ "Go to: "). eexists.
    rewrite (append_assoc (base_url s) "/select2?md=1"), (append_assoc verdict).
    reflexivity.
Qed.

Lemma smtp_events_elem (t : list event) (ev : event) :
  ev ∈ smtp_events t → ev ∈ t.
Proof. intros [Hin _]%list_elem_of_In%filter_In. by apply list_elem_of_In. Qed.

Section RunOnceEdges.

Context (html_parser : string → parsed) (lower : string → string).

Lemma check_appointments_smtp (e : env) (s : checker) :
  smtp_events (trace (check_appointments html_parser lower e s)) = [].
Proof. open_check. explore; reflexivity. Qed.

Lemma send_email_message (e : env) (s : checker) (subject body : string) (m : message) :
  SmtpSendMessage m ∈ trace (send_email e subject body s) →
  m = {| msg_from := sender_email (email_config s);
         msg_to := recipient_email (email_config s);
         msg_subject := subject; msg_body := body |}.
Proof.
  open_send. explore; intros Hin; in_list Hin; try discriminate Hin; by injection Hin.
Qed.

(** X13. [run_once] assigns to [last_state] only, and not even to it when
    it is interrupted: the URLs and the mail configuration stay, and the
    session comes out as the check left it, with the headers it had. *)
Theorem run_once_touches_last_state_only (e : env) (s : checker) :
  base_url (state_after (run_once html_parser lower e s)) = base_url s
  ∧ start_url (state_after (run_once html_parser lower e s)) = start_url s
  ∧ final_url (state_after (run_once html_parser lower e s)) = final_url s
  ∧ email_config (state_after (run_once html_parser lower e s)) = email_config s
  ∧ session (state_after (run_once html_parser lower e s))
    = session (state_after (check_appointments html_parser lower e s))
  ∧ headers (session (state_after (run_once html_parser lower e s)))
    = headers (session s)
  ∧ (∀ x, result (run_once html_parser lower e s) = Raise x →
          last_state (state_after (run_once html_parser lower e s)) = last_state s).
Proof.
  destruct (run_once_fields html_parser lower e s)
    as (Hbase & Hstart & Hfinal & Hconfig & Hsession & Hlast).
  destruct (check_appointments_fields html_parser lower e s) as (_ & _ & _ & _ & _ & Hheaders).
  split_and!; try assumption. by rewrite Hsession.
Qed.

(** The SMTP calls of [run_once] are those of the one [send_email] it may
    make. *)
Lemma run_once_smtp (e : env) (s : checker) :
  smtp_events (trace (run_once html_parser lower e s))
  = match result (check_appointments html_parser lower e s) with
    | Val (flag, verdict) =>
        if should_notify (last_state s) flag
        then smtp_events
               (trace (send_email e email_subject (email_body s e verdict)
                         (state_after (check_appointments html_parser lower e s))))
        else []
    | Raise _ => []
    end.
Proof.
  unfold run_once; unfold_M.
  pose proof (check_appointments_state html_parser lower e s) as Hstate.
  pose proof (check_appointments_smtp e s) as Hquiet.
  unfold state_after, result, trace in *.
  destruct (check_appointments html_parser lower e s) as [[checked s1] t1].
  cbn [fst snd] in *.
  generalize dependent (jar_after e t1 (cookies (session s))). intros j Hstate.
  subst s1.
  destruct checked as [[flag verdict]|y]; cbn [fst snd app]; own_fields.
  - destruct (should_notify (last_state s) flag).
    + destruct (send_email _ _ _ _) as [[[sent|y] s2] t2]; cbn [fst snd].
      * rewrite smtp_events_cons, smtp_events_app, Hquiet, smtp_events_cons.
        cbn [is_smtp app]. by rewrite !app_nil_r.
      * rewrite smtp_events_cons, smtp_events_app, Hquiet, smtp_events_cons.
        cbn [is_smtp app]. reflexivity.
    + cbn [fst snd]. rewrite smtp_events_cons, smtp_events_app, Hquiet. reflexivity.
  - rewrite smtp_events_cons, Hquiet. reflexivity.
Qed.

(** X14. A message sent by [run_once] goes from the configured sender to
    the configured recipient under the fixed subject, only after a check that
    found Available while the remembered state was not Available; its body
    opens with the message of the check and holds the booking link. *)
Theorem notification_content (e : env) (s : checker) (m : message) :
  SmtpSendMessage m ∈ trace (run_once html_parser lower e s) →
  ∃ verdict,
    result (check_appointments html_parser lower e s) = Val (true, verdict)
    ∧ last_state s ≠ Some true
    ∧ msg_from m = sender_email (email_config s)
    ∧ msg_to m = recipient_email (email_config s)
    ∧ msg_subject m = email_subject
    ∧ msg_body m = email_body s e verdict
    ∧ startswith (msg_body m) verdict = true
    ∧ str_in (base_url s +:+ "/select2?md=1") (msg_body m) = true.
Proof.
  intros Hin. apply smtp_in_smtp_events in Hin; [|reflexivity].
  rewrite run_once_smtp in Hin.
  destruct (result (check_appointments html_parser lower e s)) as [[flag verdict]|y];
    [|by apply elem_of_nil in Hin].
  unfold should_notify in Hin. destruct flag; cbn [andb] in Hin;
    [|by apply elem_of_nil in Hin].
  destruct (decide (last_state s = Some true)) as [Hlast|Hlast].
  - rewrite bool_decide_true in Hin by exact Hlast. by apply elem_of_nil in Hin.
  - rewrite bool_decide_false in Hin by exact Hlast. cbn [negb] in Hin.
    apply smtp_events_elem, send_email_message in Hin. subst m.
    destruct (check_appointments_fields html_parser lower e s)
      as (_ & _ & _ & Hconfig & _).
    rewrite Hconfig.
    exists verdict. cbn [msg_from msg_to msg_subject msg_body].
    destruct (email_body_shape s e verdict) as [Hopens Hlink].
    split; [reflexivity|]. split; [exact Hlast|].
    repeat (split; [reflexivity|]). split; [exact Hopens | exact Hlink].
Qed.

End RunOnceEdges.

(** ** The loop and the script *)

(** X19. The keys reported as missing are those of the three environment
    variables that are unset, in the order sender, password, recipient; none
    is reported exactly when all three are set, and a variable set to the
    empty string counts as set. *)
Theorem missing_lists_unset_variables (getenv : string → option string) :
  (∀ k, k ∈ missing (main_email_config getenv) ↔
        (k = "sender_email" ∧ getenv "SENDER_EMAIL" = None)
        ∨ (k = "sender_password" ∧ getenv "SENDER_PASSWORD" = None)
        ∨ (k = "recipient_email" ∧ getenv "RECIPIENT_EMAIL" = None))
  ∧ (missing (main_email_config getenv) = [] ↔
     is_Some (getenv "SENDER_EMAIL") ∧ is_Some (getenv "SENDER_PASSWORD")
     ∧ is_Some (getenv "RECIPIENT_EMAIL"))
  ∧ (getenv "SENDER_EMAIL" = None → getenv "SENDER_PASSWORD" = Some "" →
     getenv "RECIPIENT_EMAIL" = None →
     repr_list (missing (main_email_config getenv)) = "['sender_email', 'recipient_email']").
Proof.
  unfold missing, main_email_config. cbn [sender_email sender_password recipient_email].
  destruct (getenv "SENDER_EMAIL") as [a|], (getenv "SENDER_PASSWORD") as [b|],
    (getenv "RECIPIENT_EMAIL") as [c|]; cbn.
  all: split; [intros k; rewrite ?elem_of_cons, ?elem_of_nil; intuition (try discriminate; auto)|].
  all: split; [split; [try discriminate; intros _; by split_and!
                      | try reflexivity; intros (Ha & Hb & Hc);
                        exfalso; first [by destruct Ha | by destruct Hb | by destruct Hc]]
              |].
  all: intros Ha Hb Hc; first [discriminate Ha | discriminate Hb | discriminate Hc | reflexivity].
Qed.

Section LoopEdges.

Context (html_parser : string → parsed) (lower : string → string).

(** X16. A signal during the check or the notification, or during the sleep
    between two checks (of an interval that [time.sleep] takes), ends the
    loop through [break]: the farewell line is the last thing printed and
    the remaining rounds are not run. *)
Theorem interrupt_breaks_cleanly
    (e : env) (envs : list env) (check_interval : Z) (s : checker) :
  (result (run_once html_parser lower e s) = Raise KeyboardInterrupt →
   loop html_parser lower (e :: envs) check_interval s
   = (Returned, state_after (run_once html_parser lower e s),
      trace (run_once html_parser lower e s)
      ++ [EPrint (nl +:+ "👋 Stopping checker...")]))
  ∧ (∀ a, result (run_once html_parser lower e s) = Val a →
          0 ≤ check_interval ≤ Z.min sleep_max (sleep_limit e) →
          sleep_interrupted e check_interval = true →
          loop html_parser lower (e :: envs) check_interval s
          = (Returned, state_after (run_once html_parser lower e s),
             trace (run_once html_parser lower e s)
             ++ [Sleep check_interval; EPrint (nl +:+ "👋 Stopping checker...")])).
Proof.
  split.
  - intros Hres. cbn [loop]. unfold iteration.
    pose proof (round_interrupted html_parser lower e check_interval s _ Hres) as Hround.
    rewrite (loop_guard_signal e _ s) by (by rewrite Hround).
    by rewrite Hround.
  - intros a Hres Hrange Hsleep. cbn [loop]. unfold iteration.
    pose proof (round_after_check html_parser lower e check_interval s a Hres) as Hround.
    rewrite (sleep_error_None _ _ Hrange), Hsleep in Hround.
    rewrite (loop_guard_signal e _ s) by (by rewrite Hround).
    rewrite Hround. unfold state_after, trace. cbn [fst snd].
    by rewrite <-app_assoc.
Qed.

(** X17. With a negative interval that fits the clock (down to
    [- sleep_max]) the sleep of a round raises [ValueError]: the round logs
    it and sleeps 60 seconds instead; a signal during that sleep is raised
    inside the handler and leaves the loop as an exception. *)
Theorem negative_interval_round
    (e : env) (envs : list env) (check_interval : Z) (s : checker) (a : bool) :
  result (run_once html_parser lower e s) = Val a →
  - sleep_max ≤ check_interval < 0 →
  iteration html_parser lower e check_interval s
  = (if sleep_interrupted e 60 then Raise KeyboardInterrupt else Val true,
     state_after (run_once html_parser lower e s),
     trace (run_once html_parser lower e s)
     ++ [EPrint "⚠️ Unexpected error: sleep length must be non-negative"; Sleep 60])
  ∧ (sleep_interrupted e 60 = true →
     result (loop html_parser lower (e :: envs) check_interval s)
     = Escaped KeyboardInterrupt).
Proof.
  intros Hres Hneg.
  pose proof (round_after_check html_parser lower e check_interval s a Hres) as Hround.
  rewrite (sleep_error_negative _ _ Hneg) in Hround.
  assert (iteration html_parser lower e check_interval s
          = (if sleep_interrupted e 60 then Raise KeyboardInterrupt else Val true,
             state_after (run_once html_parser lower e s),
             trace (run_once html_parser lower e s)
             ++ [EPrint "⚠️ Unexpected error: sleep length must be non-negative"; Sleep 60]))
    as Hiteration.
  { unfold iteration.
    rewrite (loop_guard_exception e _ s (OtherException "sleep length must be non-negative"))
      by first [reflexivity | by rewrite Hround].
    by rewrite Hround. }
  split; [exact Hiteration|].
  intros Hsleep. cbn [loop]. rewrite Hiteration, Hsleep. reflexivity.
Qed.

(** X22. An interval beyond what [time.sleep] can take, in either sign,
    makes the sleep of a round raise [OverflowError] (with the text of
    CPython 3.11): the round logs it and sleeps 60 seconds instead. *)
Theorem oversized_interval_round
    (e : env) (check_interval : Z) (s : checker) (a : bool) :
  result (run_once html_parser lower e s) = Val a →
  check_interval < - sleep_max ∨ sleep_max < check_interval →
  iteration html_parser lower e check_interval s
  = (if sleep_interrupted e 60 then Raise KeyboardInterrupt else Val true,
     state_after (run_once html_parser lower e s),
     trace (run_once html_parser lower e s)
     ++ [EPrint "⚠️ Unexpected error: timestamp too large to convert to C _PyTime_t";
         Sleep 60]).
Proof.
  intros Hres Hrange.
  pose proof (round_after_check html_parser lower e check_interval s a Hres) as Hround.
  rewrite (sleep_error_overflow _ _ Hrange) in Hround. unfold iteration.
  rewrite (loop_guard_exception e _ s
             (OtherException "timestamp too large to convert to C _PyTime_t"))
    by first [reflexivity | by rewrite Hround].
  by rewrite Hround.
Qed.

(** X23. An interval that fits the clock of the interpreter but ends beyond
    what the kernel accepts makes the sleep of a round raise [OSError] (on
    Linux, errno 22): the round logs it and sleeps 60 seconds instead. *)
Theorem refused_interval_round
    (e : env) (check_interval : Z) (s : checker) (a : bool) :
  result (run_once html_parser lower e s) = Val a →
  sleep_limit e < check_interval ≤ sleep_max →
  iteration html_parser lower e check_interval s
  = (if sleep_interrupted e 60 then Raise KeyboardInterrupt else Val true,
     state_after (run_once html_parser lower e s),
     trace (run_once html_parser lower e s)
     ++ [EPrint "⚠️ Unexpected error: [Errno 22] Invalid argument"; Sleep 60]).
Proof.
  intros Hres Hrange.
  pose proof (round_after_check html_parser lower e check_interval s a Hres) as Hround.
  rewrite (sleep_error_refused _ _ Hrange) in Hround. unfold iteration.
  rewrite (loop_guard_exception e _ s (OtherException "[Errno 22] Invalid argument"))
    by first [reflexivity | by rewrite Hround].
  by rewrite Hround.
Qed.

(** X18. After rounds without a signal the loop remembers the flag of the
    latest check, and the URLs and the mail configuration are unchanged. *)
Theorem loop_remembers_latest_check
    (envs : list env) (check_interval : Z) (s : checker) :
  Forall no_interrupt envs →
  last_state (state_after (loop html_parser lower envs check_interval s))
  = match last envs with
    | Some e => Some (check_flag html_parser lower e s)
    | None => last_state s
    end
  ∧ base_url (state_after (loop html_parser lower envs check_interval s)) = base_url s
  ∧ email_config (state_after (loop html_parser lower envs check_interval s))
    = email_config s.
Proof.
  intros Hcalm. revert s. induction Hcalm as [|e envs He Henvs IH]; intros s.
  - by split_and!.
  - destruct (iteration_calm html_parser lower e check_interval s He) as (Hres & Hstate & _).
    destruct (run_once_transition html_parser lower e s He) as [_ Hafter].
    destruct (run_once_fields html_parser lower e s) as (Hbase & _ & _ & Hconfig & _).
    pose proof (λ e', check_flag_after_run_once html_parser lower e e' s) as Hflags.
    specialize (IH (state_after (run_once html_parser lower e s))).
    rewrite Hafter, Hbase, Hconfig in IH.
    cbn [loop]. unfold result, state_after in *.
    destruct (iteration html_parser lower e check_interval s) as [[r s'] t].
    cbn [fst snd] in *. subst r s'.
    destruct (loop html_parser lower envs check_interval _) as [[r' s''] t'].
    cbn [fst snd] in *. destruct IH as (Hlast & Hsame & Hkept).
    split_and!; [|exact Hsame|exact Hkept].
    rewrite Hlast, last_cons. destruct (last envs) as [e'|]; [|reflexivity].
    by rewrite Hflags.
Qed.

Lemma requests_app (t1 t2 : list event) :
  requests (t1 ++ t2) = requests t1 ++ requests t2.
Proof. apply List.filter_app. Qed.

Lemma requests_cons (ev : event) (t : list event) :
  requests (ev :: t) = (if is_request ev then [ev] else []) ++ requests t.
Proof. unfold requests. cbn [List.filter]. by destruct (is_request ev). Qed.

Lemma send_email_requests (e : env) (s : checker) (subject body : string) :
  requests (trace (send_email e subject body s)) = [].
Proof. open_send. explore; reflexivity. Qed.

Lemma run_once_requests (e : env) (s : checker) :
  requests (trace (run_once html_parser lower e s))
  = requests (trace (check_appointments html_parser lower e s)).
Proof.
  unfold run_once; unfold_M.
  unfold state_after, result, trace in *.
  destruct (check_appointments html_parser lower e s) as [[checked s1] t1].
  cbn [fst snd] in *.
  destruct checked as [[flag verdict]|y]; cbn [fst snd app]; [|reflexivity].
  destruct (should_notify (last_state s1) flag).
  - pose proof (send_email_requests e s1 email_subject (email_body s1 e verdict)) as Hsend.
    unfold trace in Hsend.
    destruct (send_email _ _ _ _) as [[[sent|y] s2] t2]; cbn [fst snd] in *.
    + rewrite requests_cons, requests_app, requests_cons, !requests_app, Hsend.
      cbn [is_request app requests List.filter]. by rewrite !app_nil_r.
    + rewrite requests_cons, requests_app, requests_cons, Hsend.
      cbn [is_request app]. by rewrite !app_nil_r.
  - cbn [fst snd]. rewrite requests_cons, requests_app.
    cbn [is_request app requests List.filter]. by rewrite !app_nil_r.
Qed.

(** The mail configuration plays no part in the check. *)
Lemma check_init_config (e : env) (cfg cfg' : email_config_t) :
  result (check_appointments html_parser lower e (init cfg))
  = result (check_appointments html_parser lower e (init cfg'))
  ∧ trace (check_appointments html_parser lower e (init cfg))
    = trace (check_appointments html_parser lower e (init cfg')).
Proof. unfold init. open_check. explore; split; reflexivity. Qed.

(** X20. The script makes the requests of one check whatever the mail
    configuration, attempts a notification exactly when that check finds
    Available, and when it returns, returns the flag of the check and leaves
    it in [last_state]. *)
Theorem main_first_check_notifies
    (getenv : string → option string) (e : env) (cfg : email_config_t) :
  attempts (trace (main html_parser lower getenv e))
  = (if check_flag html_parser lower e (init cfg) then 1 else 0)%nat
  ∧ requests (trace (main html_parser lower getenv e))
    = requests (trace (check_appointments html_parser lower e (init cfg)))
  ∧ (∀ a, result (main html_parser lower getenv e) = Val a →
          a = check_flag html_parser lower e (init cfg)
          ∧ last_state (state_after (main html_parser lower getenv e)) = Some a).
Proof.
  destruct (check_init_config e (main_email_config getenv) cfg) as [Hresult Htrace].
  pose proof (run_once_attempts html_parser lower e (init (main_email_config getenv)))
    as Hattempts.
  pose proof (run_once_requests e (init (main_email_config getenv))) as Hrequests.
  pose proof (run_once_returns html_parser lower e (init (main_email_config getenv)))
    as Hreturns.
  rewrite Hresult in Hattempts. rewrite Htrace in Hrequests.
  unfold main, check_flag.
  unfold result, state_after, trace in *.
  destruct (run_once html_parser lower e (init (main_email_config getenv))) as [[r s'] t].
  cbn [fst snd] in *.
  assert (∀ w, attempts (match missing (main_email_config getenv) with
                         | [] => []
                         | _ :: _ => [EPrint w]
                         end ++ t) = attempts t
               ∧ requests (match missing (main_email_config getenv) with
                           | [] => []
                           | _ :: _ => [EPrint w]
                           end ++ t) = requests t) as Hwarning.
  { intros w. by destruct (missing (main_email_config getenv)). }
  destruct (Hwarning ("⚠️ Missing email config from environment: "
                      +:+ repr_list (missing (main_email_config getenv)))) as [-> ->].
  split_and!.
  - rewrite Hattempts.
    by destruct (check_appointments html_parser lower e (init cfg)).1.1 as [[[] ?]|?].
  - exact Hrequests.
  - intros a ->. destruct (Hreturns a eq_refl) as [-> [verdict Hcheck]].
    rewrite Hresult in Hcheck. rewrite Hcheck. by split.
Qed.

End LoopEdges.

(** ** The further properties on the fixtures *)

Lemma missing_cookie_stops_check_witness :
  result (check_appointments Fixture.html_parser Fixture.lower
            (Edge.without_cookie Fixture.available) Fixture.self)
  = Val (false, "⚠️ Session error - set-cookie was not found")
  ∧ requests (trace (check_appointments Fixture.html_parser Fixture.lower
                       (Edge.without_cookie Fixture.available) Fixture.self))
    = [HttpGet (start_url Fixture.self) None].
Proof.
  apply (missing_cookie_stops_check Fixture.html_parser Fixture.lower
           (Edge.without_cookie Fixture.available) Fixture.self
           {| status_code := 200; reason := "OK";
              url := "https://termine-buergerbuero.dresden.de/";
              set_cookie := None; text := "<html>start</html>" |}).
  - reflexivity.
  - unfold good_status. cbn [status_code]. lia.
  - by left.
Defined.

Lemma location_request_passes_cookie_header_witness :
  HttpGet (final_url Fixture.self) (Some "cookie_accept=1")
    ∈ trace (check_appointments Fixture.html_parser Fixture.lower
               Fixture.available Fixture.self)
  ∧ ∃ start, http_get Fixture.available (start_url Fixture.self) None = Val start
             ∧ set_cookie start = Some "cookie_accept=1".
Proof.
  assert (HttpGet (final_url Fixture.self) (Some "cookie_accept=1")
            ∈ trace (check_appointments Fixture.html_parser Fixture.lower
                       Fixture.available Fixture.self)) as Hin.
  { vm_compute. do 3 right. left. }
  split; [exact Hin|].
  destruct (location_request_passes_cookie_header Fixture.html_parser Fixture.lower
              Fixture.available Fixture.self _ _ Hin)
    as (_ & _ & start & Hstart & _ & Hcookie).
  exists start. by split.
Defined.

Lemma error_page_is_reported_witness :
  location_served Edge.error_page Fixture.self (Fixture.page Edge.error_text)
  ∧ Fixture.html_parser (text (Fixture.page Edge.error_text))
    = Parsed (Fixture.document [NavigableString Edge.error_text])
  ∧ str_in "fehler" (Fixture.lower (text (Fixture.page Edge.error_text))) = true
  ∧ result (check_appointments Fixture.html_parser Fixture.lower
              Edge.error_page Fixture.self)
    = Val (false, Edge.error_text).
Proof.
  assert (Fixture.html_parser (text (Fixture.page Edge.error_text))
          = Parsed (Fixture.document [NavigableString Edge.error_text]))
    as Hparse by (vm_compute; reflexivity).
  assert (str_in "fehler" (Fixture.lower (text (Fixture.page Edge.error_text))) = true)
    as Hword by (vm_compute; reflexivity).
  split; [apply site_location_served|]. split; [exact Hparse|]. split; [exact Hword|].
  apply (error_page_is_reported Fixture.html_parser Fixture.lower Edge.error_page
           Fixture.self (Fixture.page Edge.error_text) _ (site_location_served _ _)
           Hparse (or_introl Hword)).
Defined.

Lemma rejected_markup_is_reported_witness :
  location_served Edge.rejected_page Fixture.self (Fixture.page Edge.rejected_text)
  ∧ Edge.html_parser (text (Fixture.page Edge.rejected_text))
    = Rejected "The markup you provided was rejected by the parser."
  ∧ str_in "fehler" (Fixture.lower (text (Fixture.page Edge.rejected_text))) = true
  ∧ result (check_appointments Edge.html_parser Fixture.lower
              Edge.rejected_page Fixture.self)
    = Val (false, "⚠️ Error during navigation: The markup you provided was rejected by the parser.").
Proof.
  assert (Edge.html_parser (text (Fixture.page Edge.rejected_text))
          = Rejected "The markup you provided was rejected by the parser.")
    as Hparse by (vm_compute; reflexivity).
  split; [apply site_location_served|]. split; [exact Hparse|].
  split; [vm_compute; reflexivity|].
  apply (rejected_markup_is_reported Edge.html_parser Fixture.lower Edge.rejected_page
           Fixture.self (Fixture.page Edge.rejected_text) _ (site_location_served _ _)
           Hparse).
Defined.

Lemma unexpected_location_is_reported_witness :
  location_served Edge.other_office Fixture.self (Fixture.page Edge.other_office_text)
  ∧ str_in "Ausländerbehörde Dresden 33.41" (text (Fixture.page Edge.other_office_text))
    = false
  ∧ result (check_appointments Fixture.html_parser Fixture.lower
              Edge.other_office Fixture.self)
    = Val (false, "⚠️ Could not find expected location information").
Proof.
  assert (str_in "Ausländerbehörde Dresden 33.41"
            (text (Fixture.page Edge.other_office_text)) = false)
    as Hoffice by (vm_compute; reflexivity).
  split; [apply site_location_served|]. split; [exact Hoffice|].
  apply (unexpected_location_is_reported Fixture.html_parser Fixture.lower
           Edge.other_office Fixture.self (Fixture.page Edge.other_office_text)
           (Fixture.document [NavigableString Edge.other_office_text])
           (site_location_served _ _)).
  - vm_compute. reflexivity.
  - vm_compute. reflexivity.
  - vm_compute. reflexivity.
  - left. exact Hoffice.
Defined.

Lemma button_outside_form_is_reported_witness :
  Edge.html_parser (text (Fixture.page Edge.loose_button_text))
  = Parsed (Fixture.document [Fixture.weiter])
  ∧ find_weiter_button (Fixture.document [Fixture.weiter])
    = Some (Fixture.weiter,
            [ Tag "body" ∅ [Fixture.weiter]; Tag "html" ∅ [Tag "body" ∅ [Fixture.weiter]];
              Fixture.document [Fixture.weiter] ])
  ∧ result (check_appointments Edge.html_parser Fixture.lower
              Edge.loose_button Fixture.self)
    = Val (false, "⚠️ Could not find form for Weiter button")
  ∧ posts (trace (check_appointments Edge.html_parser Fixture.lower
                    Edge.loose_button Fixture.self)) = [].
Proof.
  assert (Edge.html_parser (text (Fixture.page Edge.loose_button_text))
          = Parsed (Fixture.document [Fixture.weiter])) as Hparse
    by (vm_compute; reflexivity).
  assert (find_weiter_button (Fixture.document [Fixture.weiter])
          = Some (Fixture.weiter,
                  [ Tag "body" ∅ [Fixture.weiter];
                    Tag "html" ∅ [Tag "body" ∅ [Fixture.weiter]];
                    Fixture.document [Fixture.weiter] ])) as Hbutton
    by (vm_compute; reflexivity).
  split; [exact Hparse|]. split; [exact Hbutton|].
  eapply (button_outside_form_is_reported Edge.html_parser Fixture.lower
            Edge.loose_button Fixture.self (Fixture.page Edge.loose_button_text));
    [ apply site_location_served
    | exact Hparse
    | vm_compute; reflexivity | vm_compute; reflexivity
    | vm_compute; reflexivity | vm_compute; reflexivity
    | exact Hbutton
    | vm_compute; reflexivity ].
Defined.

Lemma available_is_earned_witness :
  result (check_appointments Fixture.html_parser Fixture.lower
            Fixture.available Fixture.self) = Val (true, Edge.verdict)
  ∧ ∃ final, http_post Fixture.available
               "https://termine-buergerbuero.dresden.de/suggest"
               {[ "a" := "1"; "b" := "" ]} = Val final
             ∧ str_in no_appointments_text (text final) = false.
Proof.
  assert (result (check_appointments Fixture.html_parser Fixture.lower
                    Fixture.available Fixture.self) = Val (true, Edge.verdict)) as Hres
    by (vm_compute; reflexivity).
  split; [exact Hres|].
  destruct (available_is_earned Fixture.html_parser Fixture.lower
              Fixture.available Fixture.self _ Hres)
    as (page & soup & button & form & final
        & _ & _ & _ & _ & _ & _ & _ & _ & _ & _ & Hfinal & _).
  exists (Fixture.page "<h1>Bitte Termin auswählen</h1>"). split; [reflexivity|].
  vm_compute. reflexivity.
Defined.

Lemma failed_request_is_last_witness :
  HttpGet (start_url Fixture.self) None
    ∈ requests (trace (check_appointments Fixture.html_parser Fixture.lower
                         (Fixture.with_timeout Fixture.available) Fixture.self))
  ∧ is_Some (raised (Fixture.with_timeout Fixture.available)
               (HttpGet (start_url Fixture.self) None))
  ∧ last (requests (trace (check_appointments Fixture.html_parser Fixture.lower
                             (Fixture.with_timeout Fixture.available) Fixture.self)))
    = Some (HttpGet (start_url Fixture.self) None).
Proof.
  assert (HttpGet (start_url Fixture.self) None
            ∈ requests (trace (check_appointments Fixture.html_parser Fixture.lower
                                 (Fixture.with_timeout Fixture.available) Fixture.self)))
    as Hin by (vm_compute; left).
  assert (is_Some (raised (Fixture.with_timeout Fixture.available)
                     (HttpGet (start_url Fixture.self) None))) as Hraised
    by (eexists; reflexivity).
  split; [exact Hin|]. split; [exact Hraised|].
  apply (failed_request_is_last Fixture.html_parser Fixture.lower _ _ _ Hin
           (or_introl Hraised)).
Defined.

Lemma weiter_button_is_submitted_witness :
  find_weiter_button Edge.soup = Some Edge.button
  ∧ find_parent "form" Edge.button = Some Fixture.form
  ∧ Fixture.weiter ∈ find_all "input" Fixture.form.
Proof.
  assert (find_weiter_button Edge.soup = Some Edge.button) as Hbutton
    by (vm_compute; reflexivity).
  assert (find_parent "form" Edge.button = Some Fixture.form) as Hform
    by (vm_compute; reflexivity).
  split; [exact Hbutton|]. split; [exact Hform|].
  apply (weiter_button_is_submitted Edge.soup Edge.button Fixture.form Hbutton Hform).
Defined.

Lemma notification_content_witness :
  SmtpSendMessage Edge.notification
    ∈ trace (run_once Fixture.html_parser Fixture.lower Fixture.available Fixture.self)
  ∧ startswith (msg_body Edge.notification) Edge.verdict = true
  ∧ str_in "https://termine-buergerbuero.dresden.de/select2?md=1"
      (msg_body Edge.notification) = true.
Proof.
  assert (SmtpSendMessage Edge.notification
            ∈ trace (run_once Fixture.html_parser Fixture.lower
                       Fixture.available Fixture.self)) as Hin.
  { apply list_elem_of_In. vm_compute.
    repeat (first [left; reflexivity | right]). }
  split; [exact Hin|].
  destruct (notification_content Fixture.html_parser Fixture.lower
              Fixture.available Fixture.self _ Hin)
    as (verdict & Hcheck & _ & _ & _ & _ & _ & Hopens & Hlink).
  assert (verdict = Edge.verdict) as ->.
  { vm_compute in Hcheck. by injection Hcheck. }
  split; [exact Hopens | exact Hlink].
Defined.

Lemma negative_interval_round_witness :
  result (run_once Fixture.html_parser Fixture.lower Fixture.available Fixture.self)
  = Val true
  ∧ (- sleep_max ≤ -5 < 0)
  ∧ sleeps (trace (iteration Fixture.html_parser Fixture.lower
                     Fixture.available (-5) Fixture.self)) = 1%nat.
Proof.
  assert (result (run_once Fixture.html_parser Fixture.lower
                    Fixture.available Fixture.self) = Val true) as Hres
    by (vm_compute; reflexivity).
  assert (- sleep_max ≤ -5 < 0) as Hrange by (unfold sleep_max; lia).
  split; [exact Hres|]. split; [exact Hrange|].
  destruct (negative_interval_round Fixture.html_parser Fixture.lower
              Fixture.available [] (-5) Fixture.self true Hres Hrange) as [-> _].
  vm_compute. reflexivity.
Defined.

Lemma oversized_interval_round_witness :
  result (run_once Fixture.html_parser Fixture.lower Fixture.booked Fixture.self)
  = Val false
  ∧ (10000000000 < - sleep_max ∨ sleep_max < 10000000000)
  ∧ List.filter is_sleep
      (trace (iteration Fixture.html_parser Fixture.lower
                Fixture.booked 10000000000 Fixture.self))
    = [Sleep 60].
Proof.
  assert (result (run_once Fixture.html_parser Fixture.lower
                    Fixture.booked Fixture.self) = Val false) as Hres
    by (vm_compute; reflexivity).
  assert (10000000000 < - sleep_max ∨ sleep_max < 10000000000) as Hrange
    by (right; unfold sleep_max; lia).
  split; [exact Hres|]. split; [exact Hrange|].
  rewrite (oversized_interval_round Fixture.html_parser Fixture.lower
             Fixture.booked 10000000000 Fixture.self false Hres Hrange).
  vm_compute. reflexivity.
Defined.

Lemma refused_interval_round_witness :
  result (run_once Fixture.html_parser Fixture.lower Fixture.booked Fixture.self)
  = Val false
  ∧ (sleep_limit Fixture.booked < 9223372036 ≤ sleep_max)
  ∧ List.filter is_sleep
      (trace (iteration Fixture.html_parser Fixture.lower
                Fixture.booked 9223372036 Fixture.self))
    = [Sleep 60].
Proof.
  assert (result (run_once Fixture.html_parser Fixture.lower
                    Fixture.booked Fixture.self) = Val false) as Hres
    by (vm_compute; reflexivity).
  assert (sleep_limit Fixture.booked < 9223372036 ≤ sleep_max) as Hrange.
  { unfold sleep_max, sleep_limit. cbn [sleep_room Fixture.booked Fixture.site]. lia. }
  split; [exact Hres|]. split; [exact Hrange|].
  rewrite (refused_interval_round Fixture.html_parser Fixture.lower
             Fixture.booked 9223372036 Fixture.self false Hres Hrange).
  vm_compute. reflexivity.
Defined.

Lemma loop_remembers_latest_check_witness :
  Forall no_interrupt [Fixture.available; Fixture.booked]
  ∧ last_state (state_after (loop Fixture.html_parser Fixture.lower
                  [Fixture.available; Fixture.booked] 300 Fixture.self)) = Some false.
Proof.
  assert (Forall no_interrupt [Fixture.available; Fixture.booked]) as Hcalm
    by (repeat constructor; apply site_no_interrupt).
  split; [exact Hcalm|].
  destruct (loop_remembers_latest_check Fixture.html_parser Fixture.lower
              [Fixture.available; Fixture.booked] 300 Fixture.self Hcalm) as [-> _].
  vm_compute. reflexivity.
Defined.
